(** * The OpenFoodFacts -> Mongo RAW collector ([src/collector/main.py])

    A shallow embedding of the collector and the proofs of its ingestion
    properties.

    Conventions of the model.
    - A Python [str] is a Rocq [string] holding its UTF-8 bytes; a Python
      [int] is a [Z].
    - A payload is the value [resp.json()] hands out: the [json] type below,
      where a [dict] keeps its entries in insertion order.
    - [hashlib.sha256], [float.__repr__] and [str.strip] belong to the
      Python runtime and are fields of the [Runtime] class.
    - The network, the store's transient failures and the clock are the
      fields of a [world]; the fetches and the calls of [time.sleep], which
      return, are recorded as the events of the run.
    - A run starts where [main] has parsed its command line, connected to
      the store and ensured its indexes: [argparse] and the start-up of
      [pymongo] are not part of the model, nor is what [main] prints.
    - An exception is a value of [exn]; a call that may raise returns a
      [result]. *)

From Stdlib Require Import ZArith List String Ascii Bool Lia Permutation.
From Stdlib Require Import OrdersEx DecimalString Strings.Byte RelationClasses.
From Stdlib Require Import Sorted.
From Stdlib Require DecimalPos DecimalZ.
Import ListNotations.

Local Open Scope string_scope.
Local Open Scope Z_scope.

(** ** The Python runtime *)

Class Runtime : Type := {
  PyFloat : Type;
  float_repr : PyFloat -> string;
  str_strip : string -> string;
  hashlib_sha256 : list byte -> list byte
}.

(** ** Exceptions and results *)

Inductive exn : Type :=
| RuntimeError (msg : string)
| RequestException (msg : string)
| JSONDecodeError (msg : string)
| AttributeError (msg : string)
| DuplicateKeyError (msg : string)
| PyMongoError (msg : string).

(** [isinstance(e, PyMongoError)]: [DuplicateKeyError] is one of its
    subclasses. *)
Definition is_PyMongoError (e : exn) : bool :=
  match e with
  | DuplicateKeyError _ | PyMongoError _ => true
  | _ => false
  end.

(** [str(e)] *)
Definition exn_message (e : exn) : string :=
  match e with
  | RuntimeError m | RequestException m | JSONDecodeError m
  | AttributeError m | DuplicateKeyError m | PyMongoError m => m
  end.

Inductive result (A : Type) : Type :=
| Return (a : A)
| Raise (e : exn).
Arguments Return {A} a.
Arguments Raise {A} e.

Definition raises {A : Type} (r : result A) : Prop :=
  exists e, r = Raise e.

(** ** Strings *)

Definition dquote : ascii := ascii_of_nat 34.
Definition backslash : ascii := ascii_of_nat 92.

Definition char (c : ascii) : string := String c EmptyString.

(** [s] between two double quotes. *)
Definition quoted (s : string) : string := String dquote (s ++ char dquote).

(** [sep.join(parts)] *)
Fixpoint join (sep : string) (parts : list string) : string :=
  match parts with
  | [] => EmptyString
  | [p] => p
  | p :: rest => p ++ sep ++ join sep rest
  end.

(** [str(n)] for an [int] *)
Definition int_repr (n : Z) : string := NilZero.string_of_int (Z.to_int n).

(** A byte [10xxxxxx] continues the code point begun before it. *)
Definition is_continuation (c : ascii) : bool :=
  let n := nat_of_ascii c in (128 <=? n)%nat && (n <? 192)%nat.

(** [s[:n]]: the first [n] code points of [s]. *)
Fixpoint py_prefix (n : nat) (s : string) : string :=
  match s with
  | EmptyString => EmptyString
  | String c s' =>
      if is_continuation c then String c (py_prefix n s')
      else match n with
           | O => EmptyString
           | S n' => String c (py_prefix n' s')
           end
  end.

(** [len(s)] *)
Fixpoint py_len (s : string) : nat :=
  match s with
  | EmptyString => O
  | String c s' => if is_continuation c then py_len s' else S (py_len s')
  end.

(** [s.rstrip("/")], written on the reversed string. *)
Fixpoint lstrip_char (c : ascii) (s : string) : string :=
  match s with
  | EmptyString => EmptyString
  | String c' s' => if Ascii.eqb c c' then lstrip_char c s' else s
  end.

Definition string_rev (s : string) : string :=
  string_of_list_ascii (rev (list_ascii_of_string s)).

Definition rstrip_char (c : ascii) (s : string) : string :=
  string_rev (lstrip_char c (string_rev s)).

(** [s.endswith(c)] *)
Definition ends_with_char (c : ascii) (s : string) : bool :=
  match string_rev s with
  | String c' _ => Ascii.eqb c c'
  | EmptyString => false
  end.

(** [c * k] *)
Definition copies (k : nat) (c : ascii) : string :=
  string_of_list_ascii (repeat c k).

(** [str.strip()] on ASCII text: the whitespace at both ends goes, that is
    the characters 9 to 13 and 28 to 32. *)
Definition is_space (c : ascii) : bool :=
  existsb (Ascii.eqb c)
    (map ascii_of_nat [9; 10; 11; 12; 13; 28; 29; 30; 31; 32]%nat).

Fixpoint lstrip (s : string) : string :=
  match s with
  | EmptyString => EmptyString
  | String c s' => if is_space c then lstrip s' else s
  end.

Definition ascii_strip (s : string) : string :=
  string_rev (lstrip (string_rev (lstrip s))).

(** ** JSON values *)

Section Json.
Context {R : Runtime}.

#[local] Unset Elimination Schemes.
Inductive json : Type :=
| JNull
| JBool (b : bool)
| JInt (n : Z)
| JFloat (x : PyFloat)
| JStr (s : string)
| JList (items : list json)
| JDict (entries : list (string * json)).
#[local] Set Elimination Schemes.

(** [isinstance(p, dict)] and [isinstance(p, list)] *)
Definition is_dict (p : json) : bool :=
  match p with JDict _ => true | _ => false end.

Definition is_list (p : json) : bool :=
  match p with JList _ => true | _ => false end.

(** The keys of a [dict] are pairwise distinct, at every nesting level. *)
Fixpoint distinct_keys (ks : list string) : bool :=
  match ks with
  | [] => true
  | k :: ks' => negb (existsb (String.eqb k) ks') && distinct_keys ks'
  end.

Fixpoint well_formed (p : json) : bool :=
  match p with
  | JList items => forallb well_formed items
  | JDict entries =>
      distinct_keys (map fst entries)
      && forallb (fun kv => well_formed (snd kv)) entries
  | _ => true
  end.

(** *** [json.dumps(obj, ensure_ascii=False, sort_keys=True,
        separators=(",", ":"))] *)

Definition hex_digit (n : nat) : ascii :=
  nth n (list_ascii_of_string "0123456789abcdef") "0"%char.

(** [ESCAPE_DCT] of [json.encoder] *)
Definition escape_char (c : ascii) : string :=
  let n := nat_of_ascii c in
  if (n =? 92)%nat then String backslash (char backslash)
  else if (n =? 34)%nat then String backslash (char dquote)
  else if (n =? 8)%nat then String backslash "b"
  else if (n =? 12)%nat then String backslash "f"
  else if (n =? 10)%nat then String backslash "n"
  else if (n =? 13)%nat then String backslash "r"
  else if (n =? 9)%nat then String backslash "t"
  else if (n <? 32)%nat then
    String backslash
      ("u00" ++ String (hex_digit (n / 16)) (char (hex_digit (n mod 16))))
  else char c.

Fixpoint escape (s : string) : string :=
  match s with
  | EmptyString => EmptyString
  | String c s' => escape_char c ++ escape s'
  end.

Definition encode_basestring (s : string) : string := quoted (escape s).

(** [sorted(dct.items())]: the keys of a [dict] are distinct, so the order
    of the items is the order of their keys. *)
Definition key_le (a b : string) : bool :=
  match String_as_OT.compare a b with
  | Gt => false
  | _ => true
  end.

Fixpoint insert_item {A : Type} (kv : string * A) (l : list (string * A))
  : list (string * A) :=
  match l with
  | [] => [kv]
  | kv' :: l' =>
      if key_le (fst kv) (fst kv') then kv :: l
      else kv' :: insert_item kv l'
  end.

Definition sorted_items {A : Type} (l : list (string * A))
  : list (string * A) :=
  fold_right insert_item [] l.

Definition render_item (kv : string * string) : string :=
  encode_basestring (fst kv) ++ ":" ++ snd kv.

Fixpoint canonical_json (obj : json) : string :=
  match obj with
  | JNull => "null"
  | JBool true => "true"
  | JBool false => "false"
  | JInt n => int_repr n
  | JFloat x => float_repr x
  | JStr s => encode_basestring s
  | JList items => "[" ++ join "," (map canonical_json items) ++ "]"
  | JDict entries =>
      "{" ++ join ","
               (map render_item
                  (sorted_items
                     (map (fun kv => (fst kv, canonical_json (snd kv)))
                        entries)))
          ++ "}"
  end.

(** [hashlib.sha256(text.encode("utf-8")).hexdigest()] *)
Definition hex_of_byte (b : byte) : string :=
  let n := N.to_nat (Byte.to_N b) in
  String (hex_digit (n / 16)) (char (hex_digit (n mod 16))).

Definition hexdigest (bs : list byte) : string :=
  concat EmptyString (map hex_of_byte bs).

Definition sha256_hex (text : string) : string :=
  hexdigest (hashlib_sha256 (list_byte_of_string text)).

Definition fingerprint (payload : json) : string :=
  sha256_hex (canonical_json payload).

End Json.

(** ** Payloads equal up to the order of the keys *)

Section KeyOrder.
Context {R : Runtime}.

(** [same_up_to_key_order p q]: [q] is [p] with the entries of its objects,
    at any depth, listed in another order. *)
#[local] Unset Elimination Schemes.
Inductive same_up_to_key_order : json -> json -> Prop :=
| same_null : same_up_to_key_order JNull JNull
| same_bool (b : bool) : same_up_to_key_order (JBool b) (JBool b)
| same_int (n : Z) : same_up_to_key_order (JInt n) (JInt n)
| same_float (x : PyFloat) : same_up_to_key_order (JFloat x) (JFloat x)
| same_str (s : string) : same_up_to_key_order (JStr s) (JStr s)
| same_list (l1 l2 : list json) :
    Forall2 same_up_to_key_order l1 l2 ->
    same_up_to_key_order (JList l1) (JList l2)
| same_dict (e1 e e2 : list (string * json)) :
    Forall2 (fun a b => fst a = fst b /\ same_up_to_key_order (snd a) (snd b))
      e1 e ->
    Permutation e e2 ->
    same_up_to_key_order (JDict e1) (JDict e2).
#[local] Set Elimination Schemes.

End KeyOrder.

(** ** The remote API: [off_search] *)

Section Fetcher.
Context {R : Runtime}.

Inductive param : Type :=
| PInt (n : Z)
| PStr (s : string).

Record request : Type := mkRequest {
  url : string;
  params : list (string * param);
  timeout : Z * Z
}.

(** What [session.get] hands back once the adapter's retries are spent:
    [body] is the outcome of [resp.json()]. *)
Record response : Type := mkResponse {
  status_code : Z;
  text : string;
  body : result json
}.

(** [data.get(key)] *)
Fixpoint lookup (key : string) (entries : list (string * json))
  : option json :=
  match entries with
  | [] => None
  | (k, v) :: rest => if String.eqb k key then Some v else lookup key rest
  end.

Definition dict_get (data : json) (key : string) : result (option json) :=
  match data with
  | JDict entries => Return (lookup key entries)
  | _ => Raise (AttributeError "object has no attribute 'get'")
  end.

(** [if category_en:] *)
Definition truthy (category_en : option string) : bool :=
  match category_en with
  | Some (String _ _) => true
  | _ => false
  end.

Definition search_request (base_url : string) (page page_size : Z)
    (category_en : option string) : request :=
  let url := rstrip_char "/" base_url ++ "/api/v2/search" in
  let params := [("page", PInt page);
                 ("page_size", PInt page_size);
                 ("sort_by", PStr "last_modified_t")] in
  let params :=
    match category_en with
    | Some c =>
        if truthy category_en
        then (params ++ [("categories_tags_en", PStr c)])%list
        else params
    | None => params
    end in
  mkRequest url params (5, 15).

Definition off_search (session_get : request -> result response)
    (base_url : string) (page page_size : Z) (category_en : option string)
  : result (list json * json) :=
  match session_get (search_request base_url page page_size category_en) with
  | Raise e => Raise e
  | Return resp =>
      if negb (status_code resp =? 200) then
        Raise (RuntimeError
                 ("OFF HTTP " ++ int_repr (status_code resp) ++ ": "
                    ++ py_prefix 200 (text resp)))
      else
        match body resp with
        | Raise e => Raise e
        | Return data =>
            match dict_get data "products" with
            | Raise e => Raise e
            | Return (Some (JList products)) => Return (products, data)
            | Return _ =>
                Raise (RuntimeError "OFF response missing 'products' list")
            end
        end
  end.

(** The status is one of the class 2xx. *)
Definition is_2xx (status : Z) : bool :=
  (200 <=? status) && (status <? 300).

(** The list that the body of the response holds under [products], when it
    is a JSON object that holds one. *)
Definition products_field (resp : response) : option (list json) :=
  match body resp with
  | Return (JDict entries) =>
      match lookup "products" entries with
      | Some (JList products) => Some products
      | _ => None
      end
  | _ => None
  end.

End Fetcher.

(** ** The store: a collection with a unique index on [raw_hash] *)

Section Sink.
Context {R : Runtime}.

Record document : Type := mkDocument {
  source : string;
  fetched_at : string;
  raw_hash : string;
  payload : json
}.

Definition collection : Type := list document.

Definition has_hash (h : string) (col : collection) : bool :=
  existsb (fun d => String.eqb (raw_hash d) h) col.

(** The number of stored documents carrying the fingerprint [h]. *)
Definition count_hash (h : string) (col : collection) : nat :=
  List.length (filter (fun d => String.eqb (raw_hash d) h) col).

(** [raw_col.insert_one(doc)] under the unique index that [ensure_indexes]
    creates: [fault] is the store's failure on this call, if any. *)
Definition insert_one (fault : option string) (col : collection)
    (doc : document) : result collection :=
  match fault with
  | Some msg => Raise (PyMongoError msg)
  | None =>
      if has_hash (raw_hash doc) col
      then Raise (DuplicateKeyError "E11000 duplicate key error")
      else Return (col ++ [doc])%list
  end.

(** [insert_raw]: [now] is what [utc_now_iso()] returns during the call. *)
Definition insert_raw (fault : option string) (now : string)
    (raw_col : collection) (source : string) (payload : json)
  : result (bool * collection) :=
  let raw_json := canonical_json payload in
  let raw_hash := sha256_hex raw_json in
  let doc := mkDocument source now raw_hash payload in
  match insert_one fault raw_col doc with
  | Return col' => Return (true, col')
  | Raise (DuplicateKeyError _) => Return (false, raw_col)
  | Raise e => Raise e
  end.

End Sink.

(** ** The controller: the loop of [main] *)

Section Controller.
Context {R : Runtime}.

Record arguments : Type := mkArguments {
  limit : Z;
  page_size : Z;
  category_en : option string;
  sleep_ms : Z;
  max_pages : Z
}.

(** What the run meets outside the process: the answer of [session.get] to
    each request, and for the [n]-th call of [insert_raw] the store's
    failure, if any, and the clock. *)
Record world : Type := mkWorld {
  session_get : request -> result response;
  insert_fault : nat -> option string;
  utc_now_iso : nat -> string
}.

Inductive event : Type :=
| Fetch (page : Z)
| Sleep (ms : Z).

(** The three ways out of the [while] loop: its test fails on
    [inserted < args.limit], it fails on [page <= args.max_pages], or the
    [break] on an empty page is taken. *)
Inductive stop : Type :=
| TargetReached
| PageCapExceeded
| EmptyPage.

(** Where the run stands: at the test of the [while], inside the [for] with
    the products still to come, at [page += 1] after the [for], out of the
    loop, or unwinding an exception no handler took. *)
Inductive control : Type :=
| AtWhile
| InFor (rest : list json)
| AfterFor
| Stopped (why : stop)
| Uncaught (e : exn).

Record state : Type := mkState {
  inserted : Z;
  duplicates : Z;
  requested : Z;
  failed_pages : Z;
  page : Z;
  raw_col : collection;
  calls : nat;
  out : list event;
  pc : control
}.

Definition set_pc (c : control) (s : state) : state :=
  mkState (inserted s) (duplicates s) (requested s) (failed_pages s)
    (page s) (raw_col s) (calls s) (out s) c.

Definition emit (e : event) (s : state) : state :=
  mkState (inserted s) (duplicates s) (requested s) (failed_pages s)
    (page s) (raw_col s) (calls s) (out s ++ [e])%list (pc s).

Definition incr_inserted (s : state) : state :=
  mkState (inserted s + 1) (duplicates s) (requested s) (failed_pages s)
    (page s) (raw_col s) (calls s) (out s) (pc s).

Definition incr_duplicates (s : state) : state :=
  mkState (inserted s) (duplicates s + 1) (requested s) (failed_pages s)
    (page s) (raw_col s) (calls s) (out s) (pc s).

Definition incr_requested (s : state) : state :=
  mkState (inserted s) (duplicates s) (requested s + 1) (failed_pages s)
    (page s) (raw_col s) (calls s) (out s) (pc s).

Definition incr_failed_pages (s : state) : state :=
  mkState (inserted s) (duplicates s) (requested s) (failed_pages s + 1)
    (page s) (raw_col s) (calls s) (out s) (pc s).

Definition incr_page (s : state) : state :=
  mkState (inserted s) (duplicates s) (requested s) (failed_pages s)
    (page s + 1) (raw_col s) (calls s) (out s) (pc s).

(** The store after a call of [insert_raw]. *)
Definition called (col : collection) (s : state) : state :=
  mkState (inserted s) (duplicates s) (requested s) (failed_pages s)
    (page s) col (S (calls s)) (out s) (pc s).

(** One invocation of the collector: the parsed command line, the base URL
    read from the environment, and the world it runs in. *)
Class Invocation : Type := mkInvocation {
  args : arguments;
  off_base_url : string;
  w : world
}.

Context {this : Invocation}.

(** [page += 1; time.sleep(args.sleep_ms / 1000.0)] *)
Definition advance (s : state) : state :=
  emit (Sleep (sleep_ms args)) (incr_page s).

(** One turn of the [while]: the test, the fetch and what follows it up to
    the [for]. *)
Definition while_step (s : state) : state :=
  if inserted s <? limit args then
    if page s <=? max_pages args then
      let s := emit (Fetch (page s)) s in
      match off_search (session_get w) off_base_url (page s)
              (page_size args) (category_en args) with
      | Raise e => set_pc AtWhile (advance (incr_failed_pages s))
      | Return ([], _full) => set_pc (Stopped EmptyPage) s
      | Return (products, _full) => set_pc (InFor products) s
      end
    else set_pc (Stopped PageCapExceeded) s
  else set_pc (Stopped TargetReached) s.

(** The body of the [for] on the product [p], [rest] being the products
    after it. *)
Definition for_step (p : json) (rest : list json) (s : state) : state :=
  let s := incr_requested s in
  if negb (is_dict p) then set_pc (InFor rest) s
  else
    match insert_raw (insert_fault w (calls s)) (utc_now_iso w (calls s))
            (raw_col s) "openfoodfacts" p with
    | Return (ok, col) =>
        let s := called col s in
        let s := if ok then incr_inserted s else incr_duplicates s in
        if limit args <=? inserted s then set_pc AfterFor s
        else set_pc (InFor rest) s
    | Raise e =>
        if is_PyMongoError e then set_pc (InFor rest) (called (raw_col s) s)
        else set_pc (Uncaught e) s
    end.

(** The outcomes of the body of the [for]. *)
Inductive for_outcome (p : json) (rest : list json) (s s' : state) : Prop :=
| skipped_not_dict :
    is_dict p = false ->
    s' = set_pc (InFor rest) (incr_requested s) ->
    for_outcome p rest s s'
| skipped_store_error (msg : string) :
    is_dict p = true ->
    insert_fault w (calls s) = Some msg ->
    s' = set_pc (InFor rest) (called (raw_col s) (incr_requested s)) ->
    for_outcome p rest s s'
| counted_duplicate :
    is_dict p = true ->
    insert_fault w (calls s) = None ->
    has_hash (fingerprint p) (raw_col s) = true ->
    s' = set_pc (if limit args <=? inserted s then AfterFor else InFor rest)
           (incr_duplicates (called (raw_col s) (incr_requested s))) ->
    for_outcome p rest s s'
| counted_inserted :
    is_dict p = true ->
    insert_fault w (calls s) = None ->
    has_hash (fingerprint p) (raw_col s) = false ->
    s' = set_pc (if limit args <=? inserted s + 1 then AfterFor
                 else InFor rest)
           (incr_inserted
              (called (raw_col s
                         ++ [mkDocument "openfoodfacts"
                               (utc_now_iso w (calls s)) (fingerprint p) p])%list
                 (incr_requested s))) ->
    for_outcome p rest s s'.

Definition step (s : state) : state :=
  match pc s with
  | AtWhile => while_step s
  | InFor [] => set_pc AfterFor s
  | InFor (p :: rest) => for_step p rest s
  | AfterFor => set_pc AtWhile (advance s)
  | Stopped _ => s
  | Uncaught _ => s
  end.

Fixpoint steps (n : nat) (s : state) : state :=
  match n with
  | O => s
  | S n' => steps n' (step s)
  end.

Definition reachable (s0 s : state) : Prop := exists n, steps n s0 = s.

Definition halted (s : state) : bool :=
  match pc s with
  | Stopped _ | Uncaught _ => true
  | _ => false
  end.

(** The loop, run until it is left; [None] when [fuel] steps do not
    suffice. *)
Fixpoint run (fuel : nat) (s : state) : option state :=
  if halted s then Some s
  else match fuel with
       | O => None
       | S fuel' => run fuel' (step s)
       end.

(** The state at line 162, over the collection [col] as the store holds
    it once [ensure_indexes] has returned. *)
Definition initial (col : collection) : state :=
  mkState 0 0 0 0 1 col O [] AtWhile.

(** The pages [1], ..., [n]. *)
Definition pages_upto (n : nat) : list Z := map Z.of_nat (seq 1 n).

(** The run is inside a page: its fetch returned products and the cursor
    has not moved past it. *)
Definition in_page (s : state) : bool :=
  match pc s with
  | InFor _ | AfterFor | Stopped EmptyPage | Uncaught _ => true
  | AtWhile | Stopped TargetReached | Stopped PageCapExceeded => false
  end.

(** The pages fetched so far, in order. *)
Fixpoint fetches (evs : list event) : list Z :=
  match evs with
  | [] => []
  | Fetch p :: evs' => p :: fetches evs'
  | Sleep _ :: evs' => fetches evs'
  end.

(** *** What holds all along a run *)

Definition counters_ok (s : state) : Prop :=
  0 <= inserted s /\ 0 <= duplicates s /\ 0 <= requested s
  /\ 0 <= failed_pages s /\ inserted s + duplicates s <= requested s.

Definition loop_ok (s : state) : Prop :=
  inserted s <= Z.max 0 (limit args)
  /\ match pc s with
     | InFor _ => inserted s < limit args
     | Stopped TargetReached => limit args <= inserted s
     | Stopped PageCapExceeded =>
         inserted s < limit args /\ max_pages args < page s
     | Stopped EmptyPage =>
         inserted s < limit args /\ page s <= max_pages args
     | Uncaught _ => False
     | AtWhile | AfterFor => True
     end.

Definition fetch_ok (s : state) : Prop :=
  1 <= page s
  /\ page s - 1 <= Z.max 0 (max_pages args)
  /\ (in_page s = true -> page s <= max_pages args)
  /\ fetches (out s)
     = pages_upto (Z.to_nat (page s - 1) + (if in_page s then 1 else 0)).

Definition run_ok (s : state) : Prop :=
  counters_ok s /\ loop_ok s /\ fetch_ok s.

End Controller.

(** ** [main] *)

Section Main.
Context {R : Runtime}.

(** [os.getenv(name, default)] over the process environment. *)
Definition environ : Type := string -> option string.

Definition getenv (env : environ) (name default : string) : string :=
  match env name with
  | Some v => v
  | None => default
  end.

Inductive main_result : Type :=
| MissingUserAgent
| Summary (code : Z) (final : state)
| Traceback (e : exn) (final : state).



Definition main (fuel : nat) (env : environ) (args : arguments)
    (w : world) (col : collection) : option main_result :=
  let off_base_url :=
    getenv env "OFF_BASE_URL" "https://world.openfoodfacts.org" in
  let off_user_agent := str_strip (getenv env "OFF_USER_AGENT" "") in
  match off_user_agent with
  | EmptyString => Some MissingUserAgent
  | _ =>
      match run (this := mkInvocation args off_base_url w) fuel
              (initial col) with
      | None => None
      | Some final =>
          match pc final with
          | Uncaught e => Some (Traceback e final)
          | _ =>
              if limit args <=? inserted final
              then Some (Summary 0 final)
              else Some (Summary 1 final)
          end
      end
  end.

End Main.

(** ** Reading a serialization *)

Section Decoding.
Context {R : Runtime}.


Definition is_lower_hex (c : ascii) : bool :=
  existsb (Ascii.eqb c) (list_ascii_of_string "0123456789abcdef").

Definition is_digit (c : ascii) : bool :=
  existsb (Ascii.eqb c) (list_ascii_of_string "0123456789").

(** A string of digits. *)
Definition digits (s : string) : Prop :=
  forallb is_digit (list_ascii_of_string s) = true.

(** A payload that holds no float. *)
Fixpoint float_free (p : json) : bool :=
  match p with
  | JFloat _ => false
  | JList items => forallb float_free items
  | JDict entries => forallb (fun kv => float_free (snd kv)) entries
  | _ => true
  end.

(** The payload with the items of its objects sorted by key, at every
    level. *)
Fixpoint canon (p : json) : json :=
  match p with
  | JList items => JList (map canon items)
  | JDict entries =>
      JDict (sorted_items (map (fun kv => (fst kv, canon (snd kv))) entries))
  | _ => p
  end.

Definition hex_value (c : ascii) : option nat :=
  let n := nat_of_ascii c in
  if is_digit c then Some (n - 48)%nat
  else if is_lower_hex c then Some (n - 87)%nat
  else None.

(** The character that an escaped string begins with, and what follows
    it; [None] where the string ends or is no escaped string. *)
Definition unescape_char (s : string) : option (ascii * string) :=
  match s with
  | EmptyString => None
  | String c r =>
      if Ascii.eqb c dquote then None
      else if Ascii.eqb c backslash then
        match r with
        | EmptyString => None
        | String e r' =>
            if Ascii.eqb e dquote then Some (dquote, r')
            else if Ascii.eqb e backslash then Some (backslash, r')
            else if Ascii.eqb e "b" then Some (ascii_of_nat 8, r')
            else if Ascii.eqb e "f" then Some (ascii_of_nat 12, r')
            else if Ascii.eqb e "n" then Some (ascii_of_nat 10, r')
            else if Ascii.eqb e "r" then Some (ascii_of_nat 13, r')
            else if Ascii.eqb e "t" then Some (ascii_of_nat 9, r')
            else if Ascii.eqb e "u" then
              match r' with
              | String "0" (String "0" (String h1 (String h2 r''))) =>
                  match hex_value h1, hex_value h2 with
                  | Some a, Some b => Some (ascii_of_nat (16 * a + b), r'')
                  | _, _ => None
                  end
              | _ => None
              end
            else None
        end
      else Some (c, r)
  end.

(** What may follow a value in a serialization: nothing, or a character
    that is not a digit. *)
Definition delimited (r : string) : bool :=
  match r with
  | EmptyString => true
  | String c _ => negb (is_digit c)
  end.

(** The kind of value that a serialization begins with, read off its
    first character. *)
Inductive kind : Type :=
| KNull | KTrue | KFalse | KNumber | KString | KList | KDict | KOther.

Definition kind_of_head (s : string) : kind :=
  match s with
  | EmptyString => KOther
  | String c _ =>
      if Ascii.eqb c "n" then KNull
      else if Ascii.eqb c "t" then KTrue
      else if Ascii.eqb c "f" then KFalse
      else if Ascii.eqb c "-" || is_digit c then KNumber
      else if Ascii.eqb c dquote then KString
      else if Ascii.eqb c "[" then KList
      else if Ascii.eqb c "{" then KDict
      else KOther
  end.

Definition kind_of (p : json) : kind :=
  match p with
  | JNull => KNull
  | JBool true => KTrue
  | JBool false => KFalse
  | JInt _ | JFloat _ => KNumber
  | JStr _ => KString
  | JList _ => KList
  | JDict _ => KDict
  end.

(** [p] is the only payload, up to the order of the keys, that is
    serialized as it is, whatever follows. *)
Definition uniquely_read (p : json) : Prop :=
  float_free p = true ->
  forall q r r',
    float_free q = true -> delimited r = true -> delimited r' = true ->
    (canonical_json p ++ r = canonical_json q ++ r')%string ->
    canon p = canon q /\ r = r'.


End Decoding.

(** ** Readings of a run *)

Section Readings.
Context {R : Runtime}.



End Readings.

(** ** A world to run the collector in *)

Module Sample.

(** A runtime without floats, whose digest is the text itself. *)
Definition runtime : Runtime :=
  {| PyFloat := Empty_set;
     float_repr := fun x => match x with end;
     str_strip := ascii_strip;
     hashlib_sha256 := fun bs => bs |}.

#[local] Existing Instance runtime.

Definition product (code : Z) : json :=
  JDict [("code", JInt code); ("brands", JStr "acme")].

(** Page 1 holds ten distinct products. *)
Definition page1 : list json :=
  map product [1; 2; 3; 4; 5; 6; 7; 8; 9; 10].

Definition page_of (req : request) : Z :=
  match params req with
  | (_, PInt n) :: _ => n
  | _ => 0
  end.

Definition ok (products : list json) : result response :=
  let data := JDict [("count", JInt 10); ("products", JList products)] in
  Return (mkResponse 200 (canonical_json data) (Return data)).

(** The remote API: page 1 as above; page 2 answers 503 once the retries
    are spent; page 3 repeats a product of page 1 and brings a string and a
    new product; the pages after it are empty. *)
Definition get (req : request) : result response :=
  if page_of req =? 1 then ok page1
  else if page_of req =? 2 then
    Return (mkResponse 503 "Service Unavailable"
              (Raise (JSONDecodeError "Expecting value")))
  else if page_of req =? 3 then ok [product 1; JStr "junk"; product 11]
  else ok [].

(** The store loses its connection during the eighth call of
    [insert_raw]. *)
Definition fault (n : nat) : option string :=
  if (n =? 7)%nat then Some "connection closed" else None.

Definition now (n : nat) : string := "2024-01-01T00:00:00+00:00".

Definition world : world := mkWorld get fault now.

Definition base_url : string := "https://world.openfoodfacts.org".

(** [--limit 5] and [--limit 20], the other arguments at their defaults. *)
Definition limit5 : arguments := mkArguments 5 100 None 150 50.
Definition limit20 : arguments := mkArguments 20 100 None 150 50.

Definition run5 : Invocation := mkInvocation limit5 base_url world.
Definition run20 : Invocation := mkInvocation limit20 base_url world.

Definition environment (name : string) : option string :=
  if String.eqb name "OFF_USER_AGENT" then Some " collector/1.0 " else None.

Definition no_environment (name : string) : option string := None.

(** The store after a first run has inserted [product 1]. *)
Definition stored1 : collection :=
  [mkDocument "openfoodfacts" (now 0) (fingerprint (product 1)) (product 1)].

(** A response of status 201 whose body holds a list of products. *)
Definition created : response :=
  let data := JDict [("products", JList [product 1])] in
  mkResponse 201 (canonical_json data) (Return data).

(** Two payloads that list the same entries in different orders, at two
    levels. *)
Definition nested1 : json :=
  JDict [("code", JInt 7);
         ("nutriments", JDict [("fat", JInt 1); ("salt", JInt 2)]);
         ("tags", JList [JStr "a"; JNull])].

Definition nested2 : json :=
  JDict [("tags", JList [JStr "a"; JNull]);
         ("nutriments", JDict [("salt", JInt 2); ("fat", JInt 1)]);
         ("code", JInt 7)].

End Sample.

(** ** More sample data *)

Module MoreSamples.

#[local] Existing Instance Sample.runtime.

(** The document that a run writes for [p] on the sample clock. *)
Definition stored (p : json) : document :=
  mkDocument "openfoodfacts" (Sample.now 0) (fingerprint p) p.

(** A store that holds every product the sample API serves. *)
Definition all_stored : collection :=
  map stored (Sample.page1 ++ [Sample.product 11]).

(** [--limit 0], [--max-pages 0] and an empty [--category-en]. *)
Definition limit0 : arguments := mkArguments 0 100 None 150 50.
Definition no_pages : arguments := mkArguments 5 100 None 150 0.
Definition blank_category : arguments :=
  mkArguments 5 100 (Some EmptyString) 150 50.

(** Inside a page whose next product is [Sample.nested2], the store
    holding [Sample.nested1]. *)
Definition reordered : state :=
  mkState 0 0 0 0 1 [stored Sample.nested1] 0 [Fetch 1]
    (InFor [Sample.nested2]).

End MoreSamples.

(** * Proofs *)

(** ** Canonical serialization *)

Section CanonicalJson.
Context {R : Runtime}.

(** Induction on a payload, with the hypothesis on every item of a list and
    on every value of an object. *)
Lemma json_induction (P : json -> Prop) :
  P JNull ->
  (forall b, P (JBool b)) ->
  (forall n, P (JInt n)) ->
  (forall x, P (JFloat x)) ->
  (forall s, P (JStr s)) ->
  (forall items, Forall P items -> P (JList items)) ->
  (forall entries, Forall (fun kv => P (snd kv)) entries -> P (JDict entries)) ->
  forall p, P p.
Proof.
  intros Hnull Hbool Hint Hfloat Hstr Hlist Hdict.
  refine (fix IH (p : json) {struct p} : P p :=
            match p with
            | JNull => Hnull
            | JBool b => Hbool b
            | JInt n => Hint n
            | JFloat x => Hfloat x
            | JStr s => Hstr s
            | JList items =>
                Hlist items
                  ((fix all (l : list json) : Forall P l :=
                      match l with
                      | [] => Forall_nil P
                      | i :: l' => Forall_cons i (IH i) (all l')
                      end) items)
            | JDict entries =>
                Hdict entries
                  ((fix all (l : list (string * json))
                      : Forall (fun kv => P (snd kv)) l :=
                      match l with
                      | [] => Forall_nil _
                      | (k, v) :: l' => Forall_cons (k, v) (IH v) (all l')
                      end) entries)
            end).
Qed.

Lemma key_le_cases (a b : string) :
  if key_le a b then a = b \/ String_as_OT.lt a b else String_as_OT.lt b a.
Proof.
  unfold key_le.
  destruct (String_as_OT.compare_spec a b) as [Heq | Hlt | Hgt]; auto.
Qed.

Lemma key_le_total (a b : string) : key_le a b = false -> key_le b a = true.
Proof.
  intros Hab.
  pose proof (key_le_cases a b) as H1. rewrite Hab in H1.
  pose proof (key_le_cases b a) as H2.
  destruct (key_le b a); auto.
  exfalso. apply (StrictOrder_Irreflexive a).
  exact (StrictOrder_Transitive _ _ _ H2 H1).
Qed.

Lemma key_le_antisym (a b : string) :
  key_le a b = true -> key_le b a = true -> a = b.
Proof.
  intros Hab Hba.
  pose proof (key_le_cases a b) as H1. rewrite Hab in H1.
  pose proof (key_le_cases b a) as H2. rewrite Hba in H2.
  destruct H1 as [ | H1]; auto. destruct H2 as [ | H2]; auto.
  exfalso. apply (StrictOrder_Irreflexive a).
  exact (StrictOrder_Transitive _ _ _ H1 H2).
Qed.

Lemma key_le_trans (a b c : string) :
  key_le a b = true -> key_le b c = true -> key_le a c = true.
Proof.
  intros Hab Hbc.
  pose proof (key_le_cases a b) as H1. rewrite Hab in H1.
  pose proof (key_le_cases b c) as H2. rewrite Hbc in H2.
  pose proof (key_le_cases a c) as H3.
  destruct (key_le a c); auto.
  exfalso.
  destruct H1 as [-> | H1]; destruct H2 as [-> | H2].
  - exact (StrictOrder_Irreflexive _ H3).
  - apply (StrictOrder_Irreflexive c).
    exact (StrictOrder_Transitive _ _ _ H3 H2).
  - apply (StrictOrder_Irreflexive c).
    exact (StrictOrder_Transitive _ _ _ H3 H1).
  - apply (StrictOrder_Irreflexive c).
    exact (StrictOrder_Transitive _ _ _ H3
             (StrictOrder_Transitive _ _ _ H1 H2)).
Qed.

(** Two items of distinct keys go to their places whichever is inserted
    first. *)
Lemma insert_item_comm {A : Type} (a b : string * A) (l : list (string * A)) :
  fst a <> fst b ->
  insert_item a (insert_item b l) = insert_item b (insert_item a l).
Proof.
  intros Hne.
  induction l as [ | y l IHl ]; simpl.
  - destruct (key_le (fst a) (fst b)) eqn:Hab;
      destruct (key_le (fst b) (fst a)) eqn:Hba; auto.
    + elim Hne. now apply key_le_antisym.
    + apply key_le_total in Hab. congruence.
  - destruct (key_le (fst b) (fst y)) eqn:Hby;
      destruct (key_le (fst a) (fst y)) eqn:Hay; simpl;
      rewrite ?Hby, ?Hay.
    + destruct (key_le (fst a) (fst b)) eqn:Hab;
        destruct (key_le (fst b) (fst a)) eqn:Hba; auto.
      * elim Hne. now apply key_le_antisym.
      * apply key_le_total in Hab. congruence.
    + destruct (key_le (fst a) (fst b)) eqn:Hab; auto.
      rewrite (key_le_trans _ _ _ Hab Hby) in Hay. discriminate.
    + destruct (key_le (fst b) (fst a)) eqn:Hba; auto.
      rewrite (key_le_trans _ _ _ Hba Hay) in Hby. discriminate.
    + now rewrite IHl.
Qed.

Lemma distinct_keys_NoDup (ks : list string) :
  distinct_keys ks = true -> NoDup ks.
Proof.
  induction ks as [ | k ks IHks ]; simpl; intros H; constructor.
  - apply andb_prop in H. destruct H as [H _].
    intros Hin. apply negb_true_iff in H.
    assert (existsb (String.eqb k) ks = true) as Hex.
    { apply existsb_exists. exists k. split; auto. apply String.eqb_refl. }
    congruence.
  - apply andb_prop in H. tauto.
Qed.

(** [sorted] does not see the order in which a [dict] lists its items. *)
Lemma sorted_items_perm {A : Type} (l1 l2 : list (string * A)) :
  Permutation l1 l2 -> NoDup (map fst l1) ->
  sorted_items l1 = sorted_items l2.
Proof.
  induction 1 as [ | x l1 l2 Hp IH | x y l | l1 l2 l3 Hp1 IH1 Hp2 IH2 ];
    simpl; intros Hnd; auto.
  - inversion Hnd; subst. now rewrite IH.
  - apply insert_item_comm.
    inversion Hnd as [ | ? ? Hnotin _ ]; subst.
    intros Heq. apply Hnotin. left. now symmetry.
  - rewrite IH1 by assumption. apply IH2.
    eapply Permutation_NoDup; [ | exact Hnd ].
    now apply Permutation_map.
Qed.

(** Sorting the items and serializing their values commute: [json.dumps]
    sorts first. *)
Lemma insert_item_map {A B : Type} (f : A -> B) (kv : string * A)
    (l : list (string * A)) :
  insert_item (fst kv, f (snd kv)) (map (fun e => (fst e, f (snd e))) l)
  = map (fun e => (fst e, f (snd e))) (insert_item kv l).
Proof.
  induction l as [ | y l IHl ]; simpl; auto.
  destruct (key_le (fst kv) (fst y)); simpl; auto.
  now rewrite IHl.
Qed.

Lemma sorted_items_map {A B : Type} (f : A -> B) (l : list (string * A)) :
  sorted_items (map (fun e => (fst e, f (snd e))) l)
  = map (fun e => (fst e, f (snd e))) (sorted_items l).
Proof.
  induction l as [ | kv l IHl ]; simpl; auto.
  rewrite IHl. apply insert_item_map.
Qed.

Lemma map_related {A B : Type} (f : A -> B) (rel : A -> A -> Prop)
    (l1 l2 : list A) :
  Forall2 rel l1 l2 ->
  (forall a, In a l1 -> forall b, rel a b -> f a = f b) ->
  map f l1 = map f l2.
Proof.
  induction 1 as [ | a b l1 l2 Hab HF IHF ]; simpl; intros Hf; auto.
  f_equal.
  - apply Hf; auto.
  - apply IHF. intros a' Hin. apply Hf. now right.
Qed.

Lemma canonical_json_key_order (p : json) :
  well_formed p = true ->
  forall q, same_up_to_key_order p q -> canonical_json p = canonical_json q.
Proof.
  induction p as [ | b | n | x | s | items IH | entries IH ]
    using json_induction; intros Hwf q Hsame; inversion Hsame; subst; auto.
  - simpl. do 3 f_equal.
    simpl in Hwf. rewrite forallb_forall in Hwf. rewrite Forall_forall in IH.
    eapply map_related; eauto.
  - simpl. do 4 f_equal.
    simpl in Hwf. apply andb_prop in Hwf. destruct Hwf as [Hkeys Hvals].
    apply distinct_keys_NoDup in Hkeys.
    rewrite forallb_forall in Hvals. rewrite Forall_forall in IH.
    set (enc := fun kv : string * json => (fst kv, canonical_json (snd kv))).
    assert (map enc entries = map enc e) as Hmap.
    { eapply map_related; eauto.
      intros a Hin b [Hk Hv]. unfold enc. f_equal; auto. }
    rewrite Hmap. apply sorted_items_perm.
    + now apply Permutation_map.
    + rewrite <- Hmap. rewrite map_map. simpl. exact Hkeys.
Qed.

(** C2: Fingerprint determinism and canonicalization invariance: the
    fingerprint of a payload is the SHA-256 digest of its canonical
    serialization and nothing else, so two computations of it agree; and
    two payloads that are the same up to the order in which their objects,
    at any nesting level, list their keys have the same fingerprint.
    (A payload is the parsed value: the whitespace of the text it was read
    from is not part of it, and the serialization writes none between
    tokens.) *)
Theorem C2_fingerprint_canonical (p q : json) :
  well_formed p = true ->
  same_up_to_key_order p q ->
  fingerprint p = sha256_hex (canonical_json p)
  /\ fingerprint p = fingerprint q.
Proof.
  intros Hwf Hsame. split; [ reflexivity | ].
  unfold fingerprint. f_equal. now apply canonical_json_key_order.
Qed.

End CanonicalJson.

Local Open Scope list_scope.

(** ** The fetcher *)

Section FetcherProofs.
Context {R : Runtime}.

Lemma py_len_prefix (n : nat) (s : string) :
  (py_len (py_prefix n s) <= n)%nat.
Proof.
  revert n. induction s as [ | c s IH ]; intros n; simpl; [ lia | ].
  destruct (is_continuation c) eqn:Hc; simpl.
  - rewrite Hc. apply IH.
  - destruct n as [ | n ]; simpl; [ lia | ].
    rewrite Hc. specialize (IH n). lia.
Qed.

Lemma py_prefix_prefix (n : nat) (s : string) :
  exists tail, s = (py_prefix n s ++ tail)%string.
Proof.
  revert n. induction s as [ | c s IH ]; intros n; simpl.
  - now exists EmptyString.
  - destruct (is_continuation c).
    + destruct (IH n) as [tail Ht]. exists tail. simpl. now rewrite <- Ht.
    + destruct n as [ | n ].
      * now exists (String c s).
      * destruct (IH n) as [tail Ht]. exists tail. simpl. now rewrite <- Ht.
Qed.

(** C6: Fetch failure condition, as the code has it: given the response
    that [session.get] returns once its retries are spent, [off_search]
    raises exactly when the status is not 200 or the body holds no list
    under [products]; on a status other than 200 the error carries the
    status code and the first 200 characters of the body; otherwise
    [off_search] returns the list found under [products]. *)
Theorem C6_fetch_failure_condition
    (session_get : request -> result response) (base_url : string)
    (page page_size : Z) (category_en : option string) (resp : response) :
  session_get (search_request base_url page page_size category_en)
  = Return resp ->
  (raises (off_search session_get base_url page page_size category_en)
   <-> status_code resp <> 200 \/ products_field resp = None)
  /\ (status_code resp <> 200 ->
      off_search session_get base_url page page_size category_en
      = Raise (RuntimeError
                 ("OFF HTTP " ++ int_repr (status_code resp) ++ ": "
                    ++ py_prefix 200 (text resp))%string)
      /\ (py_len (py_prefix 200 (text resp)) <= 200)%nat
      /\ exists tail, text resp = (py_prefix 200 (text resp) ++ tail)%string)
  /\ (forall products,
        status_code resp = 200 ->
        products_field resp = Some products ->
        exists data,
          body resp = Return data
          /\ off_search session_get base_url page page_size category_en
             = Return (products, data)).
Proof.
  intros Hget. unfold off_search, products_field, raises. rewrite Hget.
  destruct (status_code resp =? 200) eqn:Hst; simpl.
  - apply Z.eqb_eq in Hst.
    split; [ | split ]; [ | intros H; now elim H | ].
    + destruct (body resp) as [ data | e ];
        [ | now split; eauto ].
      destruct data as [ | b | n | x | s | items | entries ]; simpl;
        try (now split; eauto).
      destruct (lookup "products" entries)
        as [ [ | b | n | x | s | items | entries' ] | ];
        try (now split; eauto).
      split; [ intros [e He]; discriminate
             | intros [H | H]; [ lia | discriminate ] ].
    + intros products _.
      destruct (body resp) as [ data | e ]; [ | discriminate ].
      destruct data as [ | b | n | x | s | items | entries ]; simpl;
        try discriminate.
      destruct (lookup "products" entries)
        as [ [ | b | n | x | s | items | entries' ] | ];
        try discriminate.
      intros H. inversion H; subst. eexists. split; reflexivity.
  - apply Z.eqb_neq in Hst.
    split; [ split; eauto | ].
    split.
    + intros _. split; [ reflexivity | ].
      split; [ apply py_len_prefix | apply py_prefix_prefix ].
    + intros products H. contradiction.
Qed.

End FetcherProofs.

(** ** The store *)

Section SinkProofs.
Context {R : Runtime}.

(** [insert_raw] by cases: the store fails, holds the fingerprint already,
    or takes the document. *)
Lemma insert_raw_cases (fault : option string) (now : string)
    (col : collection) (src : string) (p : json) :
  insert_raw fault now col src p
  = match fault with
    | Some msg => Raise (PyMongoError msg)
    | None =>
        if has_hash (fingerprint p) col then Return (false, col)
        else Return (true, (col ++ [mkDocument src now (fingerprint p) p])%list)
    end.
Proof.
  unfold insert_raw, insert_one, fingerprint. simpl.
  destruct fault as [msg | ]; auto.
  destruct (has_hash _ col); auto.
Qed.


Lemma count_hash_app (h : string) (c1 c2 : collection) :
  count_hash h (c1 ++ c2) = (count_hash h c1 + count_hash h c2)%nat.
Proof.
  unfold count_hash. now rewrite filter_app, length_app.
Qed.

Lemma has_hash_count (h : string) (col : collection) :
  has_hash h col = false <-> count_hash h col = O.
Proof.
  unfold has_hash, count_hash.
  induction col as [ | d col IH ]; simpl; [ tauto | ].
  destruct (String.eqb (raw_hash d) h); simpl.
  - split; discriminate.
  - exact IH.
Qed.

(** A call of [insert_raw] never takes a document away, and adds one only
    under a fingerprint the collection did not hold. *)
Lemma insert_raw_count (fault : option string) (now : string)
    (col col' : collection) (src : string) (p : json) (ok : bool)
    (h : string) :
  insert_raw fault now col src p = Return (ok, col') ->
  count_hash h col' = count_hash h col
  \/ (count_hash h col = O /\ count_hash h col' = 1%nat).
Proof.
  rewrite insert_raw_cases.
  destruct fault as [msg | ]; [ discriminate | ].
  destruct (has_hash (fingerprint p) col) eqn:Hh; intros H; inversion H; subst;
    auto.
  rewrite count_hash_app.
  change (count_hash h [mkDocument src now (fingerprint p) p])
    with (List.length (if String.eqb (fingerprint p) h
                       then [mkDocument src now (fingerprint p) p] else [])).
  destruct (String.eqb (fingerprint p) h) eqn:Heq; simpl.
  - right. apply String.eqb_eq in Heq. subst h.
    apply has_hash_count in Hh. rewrite Hh. auto.
  - left. lia.
Qed.

End SinkProofs.

(** ** The loop *)

Section ControllerProofs.
Context {R : Runtime}.
Context {this : Invocation}.

Lemma steps_S (n : nat) (s : state) : steps (S n) s = step (steps n s).
Proof.
  revert s. induction n as [ | n IH ]; intros s; auto.
  change (steps (S (S n)) s) with (steps (S n) (step s)).
  now rewrite IH.
Qed.

Lemma steps_add (n m : nat) (s : state) :
  steps (n + m) s = steps m (steps n s).
Proof.
  revert s. induction n as [ | n IH ]; intros s; simpl; auto.
Qed.

Lemma reachable_refl (s : state) : reachable s s.
Proof. now exists O. Qed.

Lemma reachable_step (s0 s : state) :
  reachable s0 s -> reachable s0 (step s).
Proof.
  intros [n Hn]. exists (S n). rewrite steps_S. now rewrite Hn.
Qed.

Lemma reachable_trans (s0 s1 s2 : state) :
  reachable s0 s1 -> reachable s1 s2 -> reachable s0 s2.
Proof.
  intros [n Hn] [m Hm]. exists (n + m)%nat.
  rewrite steps_add. now rewrite Hn.
Qed.

(** A property that holds at the start and that every step keeps holds all
    along the run. *)
Lemma invariant_reachable (P : state -> Prop) (s0 : state) :
  P s0 -> (forall s, P s -> P (step s)) ->
  forall s, reachable s0 s -> P s.
Proof.
  intros H0 Hstep s [n Hn]. subst s.
  induction n as [ | n IH ]; auto.
  rewrite steps_S. auto.
Qed.

Lemma halted_step (s : state) : halted s = true -> step s = s.
Proof.
  unfold halted, step. destruct (pc s); try discriminate; auto.
Qed.

Lemma halted_steps (n : nat) (s : state) :
  halted s = true -> steps n s = s.
Proof.
  intros H. induction n as [ | n IH ]; auto.
  simpl. rewrite halted_step; auto.
Qed.

(** *** What one step does *)

Lemma for_step_outcome (p : json) (rest : list json) (s : state) :
  for_outcome p rest s (for_step p rest s).
Proof.
  unfold for_step.
  destruct (is_dict p) eqn:Hd; simpl.
  - rewrite insert_raw_cases.
    destruct (insert_fault w (calls s)) as [msg | ] eqn:Hf; simpl.
    + eapply skipped_store_error; eauto.
    + destruct (has_hash (fingerprint p) (raw_col s)) eqn:Hh; simpl.
      * apply counted_duplicate; auto.
        destruct (limit args <=? inserted s); reflexivity.
      * apply counted_inserted; auto.
        destruct (limit args <=? inserted s + 1); reflexivity.
  - now apply skipped_not_dict.
Qed.

(** Case analysis on the body of the [for]. *)
Ltac for_cases p rest s :=
  destruct (for_step_outcome p rest s)
    as [ ? -> | ? ? ? -> | ? ? ? -> | ? ? ? -> ].


(** *** Invariants of the run *)

Lemma counters_ok_step (s : state) : counters_ok s -> counters_ok (step s).
Proof.
  unfold counters_ok, step. intros H.
  destruct (pc s) as [ | [ | p rest ] | | | ]; simpl; auto.
  - unfold while_step.
    destruct (inserted s <? limit args); simpl; auto.
    destruct (page s <=? max_pages args); simpl; auto.
    destruct (off_search _ _ _ _ _) as [ [ [ | p ps ] full ] | e ]; simpl;
      auto; lia.
  - for_cases p rest s;
      simpl; lia.
Qed.

Lemma loop_ok_step (s : state) : loop_ok s -> loop_ok (step s).
Proof.
  unfold loop_ok, step. intros [Hmax Hpc].
  destruct (pc s) as [ | [ | p rest ] | | why | e ] eqn:Epc; simpl; auto.
  - unfold while_step.
    destruct (inserted s <? limit args) eqn:Hlim; simpl.
    + apply Z.ltb_lt in Hlim.
      destruct (page s <=? max_pages args) eqn:Hpage; simpl.
      * apply Z.leb_le in Hpage.
        destruct (off_search _ _ _ _ _) as [ [ [ | p ps ] full ] | e ];
          simpl; auto.
      * apply Z.leb_gt in Hpage. auto.
    + apply Z.ltb_ge in Hlim. auto.
  - for_cases p rest s;
      simpl; auto.
    + destruct (limit args <=? inserted s) eqn:E; simpl; auto.
    + destruct (limit args <=? inserted s + 1) eqn:E; simpl.
      * split; auto. lia.
      * apply Z.leb_gt in E. split; auto. lia.
  - rewrite Epc. auto.
  - rewrite Epc. auto.
Qed.

Lemma fetches_app (l1 l2 : list event) :
  fetches (l1 ++ l2) = fetches l1 ++ fetches l2.
Proof.
  induction l1 as [ | [ p | ms ] l1 IH ]; simpl; auto.
  now rewrite IH.
Qed.

Lemma pages_upto_S (n : nat) :
  pages_upto (S n) = pages_upto n ++ [Z.of_nat (S n)].
Proof.
  unfold pages_upto. rewrite seq_S, map_app. reflexivity.
Qed.

Lemma pages_upto_next (p : Z) :
  1 <= p ->
  pages_upto (Z.to_nat (p - 1)) ++ [p] = pages_upto (Z.to_nat (p - 1) + 1).
Proof.
  intros Hp. rewrite Nat.add_1_r, pages_upto_S.
  do 2 f_equal. lia.
Qed.

Lemma fetch_ok_step (s : state) : fetch_ok s -> fetch_ok (step s).
Proof.
  unfold fetch_ok, step, in_page. intros (Hp1 & Hcap & Hin & Hout).
  destruct (pc s) as [ | [ | p rest ] | | why | e ] eqn:Epc; simpl.
  - unfold while_step.
    destruct (inserted s <? limit args) eqn:Hlim; simpl;
      [ | rewrite Hout; repeat split; auto; discriminate ].
    destruct (page s <=? max_pages args) eqn:Hpage; simpl;
      [ | rewrite Hout; repeat split; auto; discriminate ].
    apply Z.leb_le in Hpage.
    rewrite Nat.add_0_r in Hout.
    destruct (off_search _ _ _ _ _) as [ [ [ | p ps ] full ] | e ]; simpl;
      rewrite ?fetches_app, Hout; simpl; rewrite ?app_nil_r;
      rewrite pages_upto_next by lia;
      repeat split; auto; try lia; try discriminate.
    f_equal. lia.
  - rewrite Hout. repeat split; auto.
  - for_cases p rest s;
      simpl; try destruct (limit args <=? _); simpl; rewrite Hout;
      repeat split; auto.
  - rewrite fetches_app, Hout. simpl. rewrite app_nil_r.
    repeat split; try lia; try discriminate.
    f_equal. lia.
  - rewrite Epc. auto.
  - rewrite Epc. auto.
Qed.

Lemma run_ok_initial (col : collection) : run_ok (initial col).
Proof.
  unfold run_ok, counters_ok, loop_ok, fetch_ok, initial; simpl.
  repeat split; try lia; discriminate.
Qed.

Lemma run_ok_reachable (col : collection) (s : state) :
  reachable (initial col) s -> run_ok s.
Proof.
  apply invariant_reachable.
  - apply run_ok_initial.
  - intros s' (H1 & H2 & H3).
    split; [ | split ];
      auto using counters_ok_step, loop_ok_step, fetch_ok_step.
Qed.

(** *** Termination *)

Lemma for_step_stays (p : json) (rest : list json) (s : state) :
  page (for_step p rest s) = page s
  /\ out (for_step p rest s) = out s
  /\ failed_pages (for_step p rest s) = failed_pages s
  /\ requested (for_step p rest s) = requested s + 1
  /\ (pc (for_step p rest s) = InFor rest
      \/ pc (for_step p rest s) = AfterFor).
Proof.
  for_cases p rest s;
    simpl; repeat split; auto;
    destruct (limit args <=? _); auto.
Qed.



Lemma run_steps (fuel : nat) (s s' : state) :
  run fuel s = Some s' -> reachable s s' /\ halted s' = true.
Proof.
  revert s. induction fuel as [ | fuel IH ]; intros s; simpl;
    destruct (halted s) eqn:Hh; try discriminate.
  - intros H. inversion H; subst. split; auto using reachable_refl.
  - intros H. inversion H; subst. split; auto using reachable_refl.
  - intros H. destruct (IH _ H) as [[n Hn] Hh']. split; auto.
    exists (S n). exact Hn.
Qed.

Lemma steps_run (n : nat) (s : state) :
  halted (steps n s) = true ->
  forall fuel, (n <= fuel)%nat -> run fuel s = Some (steps n s).
Proof.
  revert s. induction n as [ | n IH ]; intros s Hh fuel Hle.
  - simpl in Hh. destruct fuel; simpl; now rewrite Hh.
  - destruct (halted s) eqn:Hs.
    + rewrite halted_steps by assumption.
      destruct fuel; simpl; now rewrite Hs.
    + destruct fuel as [ | fuel ]; [ lia | ]. simpl. rewrite Hs.
      apply IH; auto. lia.
Qed.

(** The steps of a run are those of any other run from the same state:
    the outcome does not depend on the fuel. *)
Lemma run_deterministic (fuel1 fuel2 : nat) (s s1 s2 : state) :
  run fuel1 s = Some s1 -> run fuel2 s = Some s2 -> s1 = s2.
Proof.
  revert fuel2 s. induction fuel1 as [ | fuel1 IH ]; intros fuel2 s; simpl.
  - destruct (halted s) eqn:Hh; try discriminate.
    intros H1. inversion H1; subst.
    destruct fuel2; simpl; rewrite Hh; congruence.
  - destruct (halted s) eqn:Hh.
    + intros H1. inversion H1; subst.
      destruct fuel2; simpl; rewrite Hh; congruence.
    + destruct fuel2 as [ | fuel2 ]; simpl; rewrite Hh; try discriminate.
      apply IH.
Qed.



(** *** What a step leaves alone *)

Lemma while_step_frame (s : state) :
  inserted (while_step s) = inserted s
  /\ duplicates (while_step s) = duplicates s
  /\ requested (while_step s) = requested s
  /\ raw_col (while_step s) = raw_col s
  /\ calls (while_step s) = calls s.
Proof.
  unfold while_step.
  destruct (inserted s <? limit args); simpl; auto.
  destruct (page s <=? max_pages args); simpl; auto.
  destruct (off_search _ _ _ _ _) as [ [ [ | p ps ] full ] | e ]; simpl; auto.
Qed.



(** The counters of a state are at most those of another. *)
Lemma step_monotone (s : state) :
  inserted s <= inserted (step s)
  /\ duplicates s <= duplicates (step s)
  /\ requested s <= requested (step s)
  /\ failed_pages s <= failed_pages (step s).
Proof.
  unfold step.
  destruct (pc s) as [ | [ | p rest ] | | why | e ]; simpl; try lia.
  - unfold while_step.
    destruct (inserted s <? limit args); simpl; try lia.
    destruct (page s <=? max_pages args); simpl; try lia.
    destruct (off_search _ _ _ _ _) as [ [ [ | p ps ] full ] | e ]; simpl;
      lia.
  - for_cases p rest s;
      simpl; lia.
Qed.

Lemma steps_monotone (n : nat) (s : state) :
  inserted s <= inserted (steps n s)
  /\ duplicates s <= duplicates (steps n s)
  /\ requested s <= requested (steps n s)
  /\ failed_pages s <= failed_pages (steps n s).
Proof.
  induction n as [ | n IH ]; [ simpl; lia | ].
  rewrite steps_S.
  pose proof (step_monotone (steps n s)). lia.
Qed.

(** A step never takes a document out of the store, and puts one in only
    under a fingerprint the store did not hold. *)
Lemma count_hash_step (h : string) (s : state) :
  count_hash h (raw_col (step s)) = count_hash h (raw_col s)
  \/ (count_hash h (raw_col s) = O
      /\ count_hash h (raw_col (step s)) = 1%nat).
Proof.
  unfold step.
  destruct (pc s) as [ | [ | p rest ] | | why | e ]; simpl; auto.
  - destruct (while_step_frame s) as (_ & _ & _ & -> & _). auto.
  - destruct (for_step_outcome p rest s) as [ ? -> | ? ? ? -> | ? ? ? -> | ? Hf Hh -> ];
      simpl; auto.
    eapply insert_raw_count with (fault := None) (ok := true).
    rewrite insert_raw_cases, Hh. reflexivity.
Qed.

Lemma count_hash_kept (h : string) (s s' : state) :
  count_hash h (raw_col s) = 1%nat -> reachable s s' ->
  count_hash h (raw_col s') = 1%nat.
Proof.
  intros Hs Hr.
  apply (invariant_reachable
           (fun x => count_hash h (raw_col x) = 1%nat) s); auto.
  intros s0 H0. destruct (count_hash_step h s0) as [ H | [ H _ ] ]; congruence.
Qed.

Lemma unique_index_kept (s s' : state) :
  (forall h, (count_hash h (raw_col s) <= 1)%nat) -> reachable s s' ->
  forall h, (count_hash h (raw_col s') <= 1)%nat.
Proof.
  intros Hs Hr.
  apply (invariant_reachable
           (fun x => forall h, (count_hash h (raw_col x) <= 1)%nat) s); auto.
  intros s0 H0 h. specialize (H0 h).
  destruct (count_hash_step h s0) as [ H | [ _ H ] ]; lia.
Qed.

(** *** The claims on the loop *)

(** C1: Idempotent ingestion: once a call of [insert_raw] has inserted a
    payload, a later call with the same payload that reaches the store
    returns [False] and leaves the store as it is; in the run that attempt
    adds one to [duplicates] and nothing to [inserted]; and the store holds
    exactly one document with that fingerprint from then on, and never more
    than one with any fingerprint if it began so. *)
Theorem C1_idempotent_ingestion (fault1 : option string) (now1 src1 : string)
    (col col1 : collection) (payload : json) (s1 s : state)
    (rest : list json) :
  insert_raw fault1 now1 col src1 payload = Return (true, col1) ->
  raw_col s1 = col1 ->
  reachable s1 s ->
  pc s = InFor (payload :: rest) ->
  is_dict payload = true ->
  insert_fault w (calls s) = None ->
  (forall now2 src2,
      insert_raw None now2 col1 src2 payload = Return (false, col1))
  /\ insert_raw (insert_fault w (calls s)) (utc_now_iso w (calls s))
       (raw_col s) "openfoodfacts" payload = Return (false, raw_col s)
  /\ duplicates (step s) = duplicates s + 1
  /\ inserted (step s) = inserted s
  /\ raw_col (step s) = raw_col s
  /\ (forall s', reachable s1 s' ->
        count_hash (fingerprint payload) (raw_col s') = 1%nat)
  /\ ((forall h, (count_hash h col <= 1)%nat) ->
      forall s' h, reachable s1 s' -> (count_hash h (raw_col s') <= 1)%nat).
Proof.
  intros Hfirst Hcol Hreach Hpc Hdict Hfault.
  assert (count_hash (fingerprint payload) col = O
          /\ count_hash (fingerprint payload) col1 = 1%nat) as [Hc0 Hc1].
  { rewrite insert_raw_cases in Hfirst.
    destruct fault1; [ discriminate | ].
    destruct (has_hash (fingerprint payload) col) eqn:Hh; [ discriminate | ].
    inversion Hfirst; subst col1. clear Hfirst.
    apply has_hash_count in Hh. split; auto.
    rewrite count_hash_app, Hh. unfold count_hash. simpl.
    now rewrite String.eqb_refl. }
  assert (forall c, count_hash (fingerprint payload) c = 1%nat ->
                    has_hash (fingerprint payload) c = true) as Hheld.
  { intros c Hc. destruct (has_hash (fingerprint payload) c) eqn:Hh; auto.
    apply has_hash_count in Hh. congruence. }
  assert (forall s', reachable s1 s' ->
                     count_hash (fingerprint payload) (raw_col s') = 1%nat)
    as Hkept.
  { intros s' Hs'. eapply count_hash_kept; eauto. now rewrite Hcol. }
  assert (has_hash (fingerprint payload) (raw_col s) = true) as Hs
      by auto.
  split; [ | split; [ | split; [ | split; [ | split; [ | split ] ] ] ] ]; auto.
  - intros now2 src2. rewrite insert_raw_cases. now rewrite (Hheld col1 Hc1).
  - rewrite insert_raw_cases, Hfault, Hs. reflexivity.
  - unfold step. rewrite Hpc.
    for_cases payload rest s;
      simpl; congruence.
  - unfold step. rewrite Hpc.
    for_cases payload rest s;
      simpl; congruence.
  - unfold step. rewrite Hpc.
    for_cases payload rest s;
      simpl; congruence.
  - intros Huniq s' h Hs'.
    eapply unique_index_kept; [ | exact Hs' ].
    intros h'. rewrite Hcol.
    destruct (insert_raw_count _ _ _ _ _ _ _ h' Hfirst) as [ -> | [ _ -> ] ];
      auto.
Qed.




(** C7: Empty-page termination: a fetch that returns no product ends the
    run there, on the exit of the empty page: the four counters, the store
    and the page cursor are as before the fetch, that fetch is the last
    event of the run, and no step follows. *)
Theorem C7_empty_page_termination (s : state) (full : json) :
  pc s = AtWhile ->
  inserted s < limit args ->
  page s <= max_pages args ->
  off_search (session_get w) off_base_url (page s) (page_size args)
    (category_en args) = Return ([], full) ->
  pc (step s) = Stopped EmptyPage
  /\ inserted (step s) = inserted s
  /\ duplicates (step s) = duplicates s
  /\ requested (step s) = requested s
  /\ failed_pages (step s) = failed_pages s
  /\ raw_col (step s) = raw_col s
  /\ page (step s) = page s
  /\ out (step s) = out s ++ [Fetch (page s)]
  /\ (forall n, steps n (step s) = step s)
  /\ (forall fuel, run (S fuel) s = Some (step s)).
Proof.
  intros Hpc Hlim Hpage Hfetch.
  assert (step s = set_pc (Stopped EmptyPage) (emit (Fetch (page s)) s))
    as Hstep.
  { unfold step. rewrite Hpc. unfold while_step.
    apply Z.ltb_lt in Hlim. apply Z.leb_le in Hpage.
    rewrite Hlim, Hpage. simpl. now rewrite Hfetch. }
  assert (halted (step s) = true) as Hhalt by (rewrite Hstep; reflexivity).
  rewrite Hstep. simpl.
  repeat (split; [ reflexivity | ]).
  rewrite <- Hstep. split.
  - intros n. now apply halted_steps.
  - intros fuel. change (run (S fuel) s = Some (steps 1 s)).
    apply steps_run; auto. lia.
Qed.


(** C10: Counter accounting: at every point of a run the four counters
    are non-negative and [inserted + duplicates <= requested]; no step
    lowers a counter; [requested] moves only in the body of the [for], by
    one for each product, which adds one to at most one of [inserted] and
    [duplicates] and to neither when the product is not an object or the
    store raises; and the state the summary is printed from is such a
    point. *)
Theorem C10_counter_accounting (col : collection) (s : state) :
  reachable (initial col) s ->
  (0 <= inserted s /\ 0 <= duplicates s /\ 0 <= requested s
   /\ 0 <= failed_pages s /\ inserted s + duplicates s <= requested s)
  /\ (forall n,
        inserted s <= inserted (steps n s)
        /\ duplicates s <= duplicates (steps n s)
        /\ requested s <= requested (steps n s)
        /\ failed_pages s <= failed_pages (steps n s))
  /\ requested (step s)
     = requested s + match pc s with InFor (_ :: _) => 1 | _ => 0 end
  /\ (forall p rest, pc s = InFor (p :: rest) ->
        ((inserted (step s) = inserted s
          /\ duplicates (step s) = duplicates s)
         \/ (inserted (step s) = inserted s + 1
             /\ duplicates (step s) = duplicates s)
         \/ (inserted (step s) = inserted s
             /\ duplicates (step s) = duplicates s + 1))
        /\ (is_dict p = false \/ insert_fault w (calls s) <> None ->
            inserted (step s) = inserted s
            /\ duplicates (step s) = duplicates s))
  /\ (forall fuel final, run fuel s = Some final ->
        inserted final + duplicates final <= requested final).
Proof.
  intros Hreach.
  split; [ apply (run_ok_reachable col s Hreach) | ].
  split; [ intros n; apply steps_monotone | ].
  split.
  { unfold step.
    destruct (pc s) as [ | [ | p rest ] | | why | e ]; simpl; try lia.
    - destruct (while_step_frame s) as (_ & _ & -> & _). lia.
    - now destruct (for_step_stays p rest s) as (_ & _ & _ & -> & _). }
  split.
  - intros p rest Hpc. unfold step. rewrite Hpc.
    for_cases p rest s;
      simpl; split; auto; intros [ H' | H' ]; congruence.
  - intros fuel final Hrun.
    destruct (run_steps _ _ _ Hrun) as [Hfin _].
    apply (run_ok_reachable col final).
    eapply reachable_trans; eauto.
Qed.

End ControllerProofs.

(** ** [main] *)

Section MainProofs.
Context {R : Runtime}.


End MainProofs.

(** ** More on the fetcher *)

Section FetcherProperties.
Context {R : Runtime}.

Lemma list_ascii_app (s t : string) :
  list_ascii_of_string (s ++ t)
  = list_ascii_of_string s ++ list_ascii_of_string t.
Proof.
  induction s as [ | c s IH ]; simpl; auto. now rewrite IH.
Qed.

Lemma string_of_list_app (l1 l2 : list ascii) :
  string_of_list_ascii (l1 ++ l2)
  = (string_of_list_ascii l1 ++ string_of_list_ascii l2)%string.
Proof.
  induction l1 as [ | c l1 IH ]; simpl; auto. now rewrite IH.
Qed.

Lemma string_rev_app (s t : string) :
  string_rev (s ++ t) = (string_rev t ++ string_rev s)%string.
Proof.
  unfold string_rev.
  now rewrite list_ascii_app, rev_app_distr, string_of_list_app.
Qed.

Lemma string_rev_involutive (s : string) : string_rev (string_rev s) = s.
Proof.
  unfold string_rev.
  rewrite list_ascii_of_string_of_list_ascii, rev_involutive.
  apply string_of_list_ascii_of_string.
Qed.

Lemma string_rev_copies (k : nat) (c : ascii) :
  string_rev (copies k c) = copies k c.
Proof.
  unfold string_rev, copies.
  rewrite list_ascii_of_string_of_list_ascii. f_equal.
  induction k as [ | k IH ]; simpl; auto.
  rewrite IH. clear IH.
  induction k as [ | k IH ]; simpl; auto. now rewrite <- IH.
Qed.

Lemma lstrip_char_split (c : ascii) (s : string) :
  exists k,
    s = (copies k c ++ lstrip_char c s)%string
    /\ match lstrip_char c s with
       | String c' _ => Ascii.eqb c c' = false
       | EmptyString => True
       end.
Proof.
  induction s as [ | c' s IH ]; simpl.
  - now exists O.
  - destruct (Ascii.eqb c c') eqn:Hc.
    + destruct IH as (k & Hk & Hhead). exists (S k). split; auto.
      apply Ascii.eqb_eq in Hc. subst c'.
      unfold copies in *. simpl. now rewrite <- Hk.
    + exists O. split; auto.
Qed.

(** What [rstrip] does: it removes a run of [c] from the end and leaves a
    string that does not end with [c]. *)
Lemma rstrip_char_split (c : ascii) (s : string) :
  exists k,
    s = (rstrip_char c s ++ copies k c)%string
    /\ ends_with_char c (rstrip_char c s) = false.
Proof.
  unfold rstrip_char, ends_with_char.
  destruct (lstrip_char_split c (string_rev s)) as (k & Hk & Hhead).
  exists k. split.
  - rewrite <- (string_rev_involutive s) at 1.
    rewrite Hk at 1. rewrite string_rev_app. now rewrite string_rev_copies.
  - rewrite string_rev_involutive.
    destruct (lstrip_char c (string_rev s)); auto.
Qed.

Lemma rstrip_char_snoc (c : ascii) (s : string) :
  rstrip_char c (s ++ String c EmptyString) = rstrip_char c s.
Proof.
  unfold rstrip_char. rewrite string_rev_app.
  change (string_rev (String c EmptyString)) with (String c EmptyString).
  simpl. now rewrite Ascii.eqb_refl.
Qed.

(** The base URL may end with slashes or not: they are dropped before the
    path is appended, so that the URL asked for is a stem that does not end
    with a slash followed by [/api/v2/search], and one more slash at the end
    of [OFF_BASE_URL] changes nothing in the request. *)
Theorem trailing_slashes_do_not_matter (base_url : string)
    (page page_size : Z) (category_en : option string) :
  search_request (base_url ++ "/") page page_size category_en
  = search_request base_url page page_size category_en
  /\ exists stem k,
      base_url = (stem ++ copies k "/")%string
      /\ ends_with_char "/" stem = false
      /\ url (search_request base_url page page_size category_en)
         = (stem ++ "/api/v2/search")%string.
Proof.
  split.
  - unfold search_request. now rewrite rstrip_char_snoc.
  - destruct (rstrip_char_split "/" base_url) as (k & Hk & Hend).
    exists (rstrip_char "/" base_url), k. auto.
Qed.

Lemma py_prefix_short (n : nat) (s : string) :
  (py_len s <= n)%nat -> py_prefix n s = s.
Proof.
  revert n. induction s as [ | c s IH ]; intros n; simpl; auto.
  destruct (is_continuation c).
  - intros H. now rewrite IH.
  - destruct n as [ | n ]; [ lia | ].
    intros H. rewrite IH; auto. lia.
Qed.

(** A body of at most 200 characters is reported whole, after the status
    code, in the error of a response whose status is not 200; the body is
    then not parsed, so the error is the same whatever JSON it holds. *)
Theorem short_body_reported_whole
    (session_get : request -> result response) (base_url : string)
    (page page_size : Z) (category_en : option string) (resp : response) :
  session_get (search_request base_url page page_size category_en)
  = Return resp ->
  status_code resp <> 200 ->
  (py_len (text resp) <= 200)%nat ->
  off_search session_get base_url page page_size category_en
  = Raise (RuntimeError
             ("OFF HTTP " ++ int_repr (status_code resp) ++ ": "
                ++ text resp)%string).
Proof.
  intros Hget Hst Hlen. unfold off_search. rewrite Hget.
  apply Z.eqb_neq in Hst. rewrite Hst. simpl.
  now rewrite py_prefix_short.
Qed.

(** What [off_search] returns comes from a response of status 200 whose
    body is a JSON object: the products are the list that object holds
    under [products], and the second component is the object itself. *)
Theorem off_search_returns_the_products
    (session_get : request -> result response) (base_url : string)
    (page page_size : Z) (category_en : option string)
    (products : list json) (data : json) :
  off_search session_get base_url page page_size category_en
  = Return (products, data) ->
  exists resp entries,
    session_get (search_request base_url page page_size category_en)
    = Return resp
    /\ status_code resp = 200
    /\ body resp = Return data
    /\ data = JDict entries
    /\ lookup "products" entries = Some (JList products).
Proof.
  unfold off_search.
  destruct (session_get _) as [ resp | e ] eqn:Hget; [ | discriminate ].
  destruct (status_code resp =? 200) eqn:Hst; simpl; [ | discriminate ].
  apply Z.eqb_eq in Hst.
  destruct (body resp) as [ data' | e ] eqn:Hbody; [ | discriminate ].
  destruct data' as [ | b | n | x | s | items | entries ]; simpl;
    try discriminate.
  destruct (lookup "products" entries)
    as [ [ | b | n | x | s | items | entries' ] | ] eqn:Hl;
    try discriminate.
  intros H. inversion H; subst.
  exists resp, entries. repeat split; auto.
Qed.

(** The errors of [off_search] on a response of status 200: the exception
    of [resp.json()] when the body is not JSON, an [AttributeError] when it
    is JSON but not an object, and the [RuntimeError] of the missing list
    when it is an object whose [products] is absent, [null] or anything
    but a list. An error of [session.get] itself is passed on as it is. *)
Theorem off_search_malformed_response
    (session_get : request -> result response) (base_url : string)
    (page page_size : Z) (category_en : option string) :
  let r := off_search session_get base_url page page_size category_en in
  let answer :=
    session_get (search_request base_url page page_size category_en) in
  (forall e, answer = Raise e -> r = Raise e)
  /\ (forall resp, answer = Return resp -> status_code resp = 200 ->
        (forall e, body resp = Raise e -> r = Raise e)
        /\ (forall data, body resp = Return data -> is_dict data = false ->
              exists msg, r = Raise (AttributeError msg))
        /\ (forall entries, body resp = Return (JDict entries) ->
              (forall l, lookup "products" entries <> Some (JList l)) ->
              r = Raise (RuntimeError
                           "OFF response missing 'products' list"))).
Proof.
  unfold off_search. split.
  - intros e He. now rewrite He.
  - intros resp Hget Hst. rewrite Hget.
    apply Z.eqb_eq in Hst. rewrite Hst. simpl.
    split; [ | split ].
    + intros e He. now rewrite He.
    + intros data Hb Hd. rewrite Hb.
      destruct data; simpl; eauto. discriminate.
    + intros entries Hb Hnone. rewrite Hb. simpl.
      destruct (lookup "products" entries)
        as [ [ | b | n | x | s | items | entries' ] | ]; auto.
      now elim (Hnone items).
Qed.

End FetcherProperties.

(** ** More on the serialization *)

Section SerializationProperties.
Context {R : Runtime}.

Lemma string_length_app (s t : string) :
  String.length (s ++ t) = (String.length s + String.length t)%nat.
Proof.
  induction s as [ | c s IH ]; simpl; auto.
Qed.

Lemma hex_of_byte_shape (b : byte) :
  String.length (hex_of_byte b) = 2%nat
  /\ forallb is_lower_hex (list_ascii_of_string (hex_of_byte b)) = true.
Proof.
  destruct b; split; reflexivity.
Qed.

Lemma append_empty (s : string) : (s ++ EmptyString)%string = s.
Proof.
  induction s as [ | c s IH ]; simpl; auto. now rewrite IH.
Qed.

Lemma append_assoc (s t u : string) :
  (s ++ (t ++ u))%string = ((s ++ t) ++ u)%string.
Proof.
  induction s as [ | c s IH ]; simpl; auto. now rewrite IH.
Qed.

Lemma concat_empty_cons (x : string) (l : list string) :
  concat EmptyString (x :: l) = (x ++ concat EmptyString l)%string.
Proof.
  destruct l; simpl; auto. now rewrite append_empty.
Qed.

(** The fingerprint is written in lowercase hexadecimal, two characters
    for each byte of the digest: 64 characters for the 32 bytes of a
    SHA-256 digest. *)
Theorem sha256_hex_shape (text : string) :
  String.length (sha256_hex text)
  = (2 * List.length (hashlib_sha256 (list_byte_of_string text)))%nat
  /\ forallb is_lower_hex (list_ascii_of_string (sha256_hex text)) = true.
Proof.
  unfold sha256_hex, hexdigest.
  induction (hashlib_sha256 (list_byte_of_string text)) as [ | b bs [IH1 IH2] ];
    [ split; reflexivity | ].
  rewrite map_cons, concat_empty_cons.
  destruct (hex_of_byte_shape b) as [Hlen Hhex].
  split.
  - rewrite string_length_app, Hlen, IH1. simpl List.length. lia.
  - rewrite list_ascii_app, forallb_app, Hhex, IH2. reflexivity.
Qed.

Lemma insert_item_perm {A : Type} (kv : string * A) (l : list (string * A)) :
  Permutation (kv :: l) (insert_item kv l).
Proof.
  induction l as [ | y l IH ]; simpl; auto.
  destruct (key_le (fst kv) (fst y)); auto.
  eapply perm_trans; [ apply perm_swap | ]. now apply perm_skip.
Qed.

Lemma sorted_items_permutation {A : Type} (l : list (string * A)) :
  Permutation l (sorted_items l).
Proof.
  induction l as [ | kv l IH ]; simpl; auto.
  eapply perm_trans; [ apply perm_skip, IH | apply insert_item_perm ].
Qed.

Lemma insert_item_sorted {A : Type} (kv : string * A)
    (l : list (string * A)) :
  StronglySorted (fun a b => key_le (fst a) (fst b) = true) l ->
  StronglySorted (fun a b => key_le (fst a) (fst b) = true)
    (insert_item kv l).
Proof.
  induction 1 as [ | y l Hl IH Hy ]; simpl.
  - repeat constructor.
  - destruct (key_le (fst kv) (fst y)) eqn:Hle.
    + constructor; [ now constructor | ].
      constructor; auto.
      rewrite Forall_forall in *. intros z Hz.
      eapply key_le_trans; eauto.
    + constructor; auto.
      apply key_le_total in Hle.
      rewrite Forall_forall in *. intros z Hz.
      apply (Permutation_in _ (Permutation_sym (insert_item_perm kv l)))
        in Hz.
      destruct Hz as [ <- | Hz ]; auto.
Qed.

(** [sort_keys=True]: the items of an object are written in the ascending
    order of their keys, each and every one of them, once. *)
Theorem sorted_items_sorted {A : Type} (l : list (string * A)) :
  StronglySorted (fun a b => key_le (fst a) (fst b) = true) (sorted_items l)
  /\ Permutation l (sorted_items l).
Proof.
  split; [ | apply sorted_items_permutation ].
  induction l as [ | kv l IH ]; simpl.
  - constructor.
  - now apply insert_item_sorted.
Qed.

(** *** Strings *)



Lemma unescape_escape_char (c : ascii) (r : string) :
  unescape_char (escape_char c ++ r) = Some (c, r).
Proof.
  destruct c as [[] [] [] [] [] [] [] []]; reflexivity.
Qed.

Lemma escape_unique (s1 s2 r1 r2 : string) :
  (escape s1 ++ String dquote r1 = escape s2 ++ String dquote r2)%string ->
  s1 = s2 /\ r1 = r2.
Proof.
  revert s2. induction s1 as [ | c1 s1 IH ]; intros [ | c2 s2 ]; simpl.
  - intros H. inversion H. auto.
  - intros H. apply (f_equal unescape_char) in H.
    rewrite <- append_assoc, unescape_escape_char in H.
    simpl in H. discriminate.
  - intros H. apply (f_equal unescape_char) in H.
    rewrite <- append_assoc, unescape_escape_char in H.
    simpl in H. discriminate.
  - intros H. apply (f_equal unescape_char) in H.
    rewrite <- !append_assoc, !unescape_escape_char in H.
    inversion H; subst.
    match goal with H' : (escape s1 ++ _ = _)%string |- _ =>
                      destruct (IH _ H') as [-> ->] end.
    auto.
Qed.

(** *** Numbers *)

Lemma uint_digits (d : Decimal.uint) : digits (NilEmpty.string_of_uint d).
Proof.
  unfold digits. induction d; simpl; auto.
Qed.

Lemma nz_uint_digits (d : Decimal.uint) :
  digits (NilZero.string_of_uint d)
  /\ exists c t, NilZero.string_of_uint d = String c t.
Proof.
  split.
  - destruct d; try apply uint_digits. reflexivity.
  - destruct d; simpl; eauto.
Qed.

(** A run of digits ends where the digits end. *)
Lemma digit_run_unique (a b r r' : string) :
  digits a -> digits b -> delimited r = true -> delimited r' = true ->
  (a ++ r = b ++ r')%string -> a = b /\ r = r'.
Proof.
  unfold digits.
  revert b. induction a as [ | c a IH ]; intros [ | c' b ]; simpl;
    intros Ha Hb Hr Hr' H.
  - auto.
  - subst r. simpl in Hr. apply andb_prop in Hb. destruct Hb as [Hc _].
    rewrite Hc in Hr. discriminate.
  - subst r'. simpl in Hr'. apply andb_prop in Ha. destruct Ha as [Hc _].
    rewrite Hc in Hr'. discriminate.
  - inversion H; subst.
    apply andb_prop in Ha. apply andb_prop in Hb.
    destruct (IH b) as [-> ->]; tauto.
Qed.

Lemma to_int_proper (n : Z) :
  Z.to_int n <> Decimal.Pos Decimal.Nil
  /\ Z.to_int n <> Decimal.Neg Decimal.Nil.
Proof.
  destruct n as [ | p | p ]; simpl; split; try discriminate;
    intros H; inversion H;
    now apply (DecimalPos.Unsigned.to_uint_nonnil p).
Qed.

Lemma int_repr_inj (n m : Z) : int_repr n = int_repr m -> n = m.
Proof.
  unfold int_repr. intros H.
  apply DecimalZ.to_int_inj.
  apply (f_equal NilZero.int_of_string) in H.
  destruct (to_int_proper n), (to_int_proper m).
  rewrite !NilZero.isi in H by assumption.
  now inversion H.
Qed.

(** The numeral of an integer: digits, after a minus sign for a negative
    one. *)
Lemma int_repr_numeral (n : Z) :
  exists sign ds,
    int_repr n = (sign ++ ds)%string
    /\ (sign = EmptyString \/ sign = "-"%string)
    /\ digits ds
    /\ exists c t, ds = String c t.
Proof.
  unfold int_repr.
  destruct (Z.to_int n) as [ d | d ]; simpl.
  - exists EmptyString, (NilZero.string_of_uint d).
    destruct (nz_uint_digits d). auto.
  - exists "-"%string, (NilZero.string_of_uint d).
    destruct (nz_uint_digits d). auto.
Qed.

Lemma int_repr_unique (n m : Z) (r r' : string) :
  delimited r = true -> delimited r' = true ->
  (int_repr n ++ r = int_repr m ++ r')%string -> n = m /\ r = r'.
Proof.
  intros Hr Hr' H.
  destruct (int_repr_numeral n) as (s1 & d1 & E1 & Hs1 & Hd1 & c1 & t1 & Hc1).
  destruct (int_repr_numeral m) as (s2 & d2 & E2 & Hs2 & Hd2 & c2 & t2 & Hc2).
  assert (forall c t, digits (String c t) -> c <> "-"%char) as Hminus.
  { intros c t Hd Hc. subst c. discriminate Hd. }
  assert (int_repr n = int_repr m /\ r = r') as [Heq Hrr].
  { rewrite E1, E2. rewrite E1, E2 in H. clear E1 E2.
    subst d1 d2.
    destruct Hs1 as [-> | ->]; destruct Hs2 as [-> | ->]; simpl in *.
    - destruct (digit_run_unique (String c1 t1) (String c2 t2) r r')
        as [E ->]; auto.
    - inversion H; subst. now elim (Hminus _ _ Hd1).
    - inversion H; subst. now elim (Hminus _ _ Hd2).
    - inversion H as [[Hc Ht]].
      destruct (digit_run_unique (String c1 t1) (String c2 t2) r r')
        as [E ->]; auto.
      + simpl. now rewrite Hc, Ht.
      + inversion E; subst; auto. }
  split; auto. now apply int_repr_inj.
Qed.

(** *** The first character tells the kind of value *)

Lemma kind_number (c : ascii) (t : string) :
  (Ascii.eqb c "-" || is_digit c)%bool = true ->
  kind_of_head (String c t) = KNumber.
Proof.
  destruct c as [[] [] [] [] [] [] [] []]; simpl; intros H;
    reflexivity || discriminate H.
Qed.

Lemma head_kind (p : json) (r : string) :
  (forall x, p <> JFloat x) ->
  kind_of_head (canonical_json p ++ r) = kind_of p.
Proof.
  destruct p as [ | [ | ] | n | x | s | items | entries ]; intros Hp;
    try reflexivity.
  - simpl canonical_json. simpl kind_of.
    destruct (int_repr_numeral n) as (sg & ds & E & Hs & Hd & c & t & Hc).
    rewrite E. subst ds.
    destruct Hs as [-> | ->]; simpl append.
    + apply kind_number. unfold digits in Hd. simpl in Hd.
      apply andb_prop in Hd. destruct Hd as [-> _]. apply orb_true_r.
    + reflexivity.
  - now elim (Hp x).
Qed.

(** *** Reading a serialization in one way only *)

Lemma join_cons_app (x : string) (l : list string) (u : string) :
  (join "," (x :: l) ++ u)%string
  = (x ++ match l with
          | [] => u
          | _ :: _ => "," ++ join "," l ++ u
          end)%string.
Proof.
  destruct l as [ | y l ]; auto.
  change (join "," (x :: y :: l))
    with (x ++ "," ++ join "," (y :: l))%string.
  now rewrite <- !append_assoc.
Qed.

Lemma canonical_json_list_app (items : list json) (r : string) :
  (canonical_json (JList items) ++ r)%string
  = String "[" (join "," (map canonical_json items) ++ "]" ++ r).
Proof.
  simpl. now rewrite <- append_assoc.
Qed.

Lemma canonical_json_dict_app (entries : list (string * json)) (r : string) :
  (canonical_json (JDict entries) ++ r)%string
  = String "{"
      (join ","
         (map (fun kv => render_item (fst kv, canonical_json (snd kv)))
            (sorted_items entries))
         ++ "}" ++ r).
Proof.
  simpl. rewrite <- append_assoc.
  rewrite (sorted_items_map canonical_json), map_map. reflexivity.
Qed.

Lemma canon_dict (entries : list (string * json)) :
  canon (JDict entries)
  = JDict (map (fun kv => (fst kv, canon (snd kv))) (sorted_items entries)).
Proof.
  simpl. now rewrite (sorted_items_map canon).
Qed.

Lemma render_item_app (k : string) (v : json) (u : string) :
  (render_item (k, canonical_json v) ++ u)%string
  = String dquote
      (escape k ++ String dquote (String ":" (canonical_json v ++ u))).
Proof.
  unfold render_item, encode_basestring, quoted, char. simpl.
  now rewrite <- !append_assoc.
Qed.

Lemma kind_of_not_other (p : json) : kind_of p <> KOther.
Proof.
  destruct p as [ | [ | ] | n | x | s | items | entries ]; discriminate.
Qed.

Lemma float_free_not_float (p : json) :
  float_free p = true -> forall x, p <> JFloat x.
Proof.
  intros H x ->. discriminate.
Qed.

Lemma list_body_unique (items : list json) :
  Forall uniquely_read items ->
  forallb float_free items = true ->
  forall items' r r',
    forallb float_free items' = true ->
    (join "," (map canonical_json items) ++ "]" ++ r
     = join "," (map canonical_json items') ++ "]" ++ r')%string ->
    map canon items = map canon items' /\ r = r'.
Proof.
  induction 1 as [ | v t Hv Ht IH ]; intros Hff [ | v' t' ] r r' Hff' H.
  - simpl in H. inversion H. auto.
  - simpl in Hff'. apply andb_prop in Hff'. destruct Hff' as [Hv' _].
    simpl map in H. rewrite join_cons_app in H.
    apply (f_equal kind_of_head) in H.
    rewrite head_kind in H by now apply float_free_not_float.
    simpl in H. symmetry in H. now elim (kind_of_not_other v').
  - simpl in Hff. apply andb_prop in Hff. destruct Hff as [Hvf _].
    simpl map in H. rewrite join_cons_app in H.
    apply (f_equal kind_of_head) in H.
    rewrite head_kind in H by now apply float_free_not_float.
    simpl in H. now elim (kind_of_not_other v).
  - simpl in Hff, Hff'.
    apply andb_prop in Hff. destruct Hff as [Hvf Htf].
    apply andb_prop in Hff'. destruct Hff' as [Hvf' Htf'].
    change (map canonical_json (v :: t))
      with (canonical_json v :: map canonical_json t) in H.
    change (map canonical_json (v' :: t'))
      with (canonical_json v' :: map canonical_json t') in H.
    rewrite !join_cons_app in H.
    apply Hv in H; auto;
      [ | destruct (map canonical_json t); reflexivity
        | destruct (map canonical_json t'); reflexivity ].
    destruct H as [Hc Htail]. simpl. rewrite Hc.
    destruct t as [ | y t ]; destruct t' as [ | y' t' ];
      simpl map in Htail; cbv iota in Htail.
    + inversion Htail. auto.
    + discriminate Htail.
    + discriminate Htail.
    + inversion Htail as [Hbody].
      destruct (IH Htf (y' :: t') r r' Htf' Hbody) as [Hm ->].
      now rewrite Hm.
Qed.

Lemma dict_body_unique (entries : list (string * json)) :
  Forall (fun kv => uniquely_read (snd kv)) entries ->
  forallb (fun kv => float_free (snd kv)) entries = true ->
  forall entries' r r',
    forallb (fun kv => float_free (snd kv)) entries' = true ->
    (join ","
       (map (fun kv => render_item (fst kv, canonical_json (snd kv)))
          entries) ++ "}" ++ r
     = join ","
         (map (fun kv => render_item (fst kv, canonical_json (snd kv)))
            entries') ++ "}" ++ r')%string ->
    map (fun kv => (fst kv, canon (snd kv))) entries
    = map (fun kv => (fst kv, canon (snd kv))) entries'
    /\ r = r'.
Proof.
  induction 1 as [ | [k v] t Hv Ht IH ]; intros Hff [ | [k' v'] t' ] r r'
    Hff' H.
  - simpl in H. inversion H. auto.
  - simpl map in H. rewrite join_cons_app, render_item_app in H.
    apply (f_equal kind_of_head) in H. discriminate H.
  - simpl map in H. rewrite join_cons_app, render_item_app in H.
    apply (f_equal kind_of_head) in H. discriminate H.
  - simpl in Hff, Hff', Hv.
    apply andb_prop in Hff. destruct Hff as [Hvf Htf].
    apply andb_prop in Hff'. destruct Hff' as [Hvf' Htf'].
    simpl map in H. rewrite !join_cons_app, !render_item_app in H.
    inversion H as [Hkey]. clear H.
    apply escape_unique in Hkey. destruct Hkey as [-> Hval].
    inversion Hval as [Hval']. clear Hval.
    apply Hv in Hval'; auto;
      [ | match goal with |- delimited (match ?l with _ => _ end) = true =>
                            destruct l; reflexivity end .. ].
    destruct Hval' as [Hc Htail]. simpl. rewrite Hc.
    destruct t as [ | y t ]; destruct t' as [ | y' t' ];
      simpl map in Htail; cbv iota in Htail.
    + inversion Htail. auto.
    + discriminate Htail.
    + discriminate Htail.
    + inversion Htail as [Hbody].
      destruct (IH Htf (y' :: t') r r' Htf' Hbody) as [Hm ->].
      now rewrite Hm.
Qed.

Lemma canonical_json_unique (p : json) : uniquely_read p.
Proof.
  induction p as [ | b | n | x | s | items IH | entries IH ]
    using json_induction; intros Hp q r r' Hq Hr Hr' H;
    try discriminate Hp;
    pose proof (float_free_not_float q Hq) as Hnq;
    destruct q as [ | b' | n' | x' | s' | items' | entries' ];
    try discriminate Hq;
    try (apply (f_equal kind_of_head) in H;
         rewrite !head_kind in H
           by (assumption || (intros ? ?; discriminate));
         simpl in H;
         repeat match goal with b0 : bool |- _ => destruct b0 end;
         discriminate H).
  - simpl in H. inversion H. auto.
  - destruct b, b'; simpl in H; inversion H; auto;
      apply (f_equal kind_of_head) in H; discriminate H.
  - change (int_repr n ++ r = int_repr n' ++ r')%string in H.
    destruct (int_repr_unique n n' r r') as [-> ->]; auto.
  - change (String dquote ((escape s ++ String dquote EmptyString) ++ r)
            = String dquote ((escape s' ++ String dquote EmptyString) ++ r'))
      in H.
    rewrite <- !append_assoc in H. simpl in H.
    inversion H as [H'].
    destruct (escape_unique _ _ _ _ H') as [-> ->]. auto.
  - rewrite !canonical_json_list_app in H. inversion H as [Hbody].
    simpl in Hp, Hq.
    destruct (list_body_unique items IH Hp items' r r' Hq Hbody)
      as [Hm ->].
    simpl. now rewrite Hm.
  - rewrite !canonical_json_dict_app in H. inversion H as [Hbody].
    simpl in Hp, Hq.
    rewrite !canon_dict.
    assert (forall (l : list (string * json)) (P : string * json -> Prop),
               Forall P l -> Forall P (sorted_items l)) as Hsorted.
    { intros l P Hl. rewrite Forall_forall in *. intros z Hz.
      apply Hl.
      eapply Permutation_in;
        [ apply Permutation_sym, sorted_items_permutation | exact Hz ]. }
    assert (forall l : list (string * json),
               forallb (fun kv => float_free (snd kv)) l = true ->
               forallb (fun kv => float_free (snd kv)) (sorted_items l)
               = true) as Hsortedb.
    { intros l Hl. rewrite forallb_forall in *. intros z Hz.
      apply Hl.
      eapply Permutation_in;
        [ apply Permutation_sym, sorted_items_permutation | exact Hz ]. }
    destruct (dict_body_unique (sorted_items entries) (Hsorted _ _ IH)
                (Hsortedb _ Hp) (sorted_items entries') r r'
                (Hsortedb _ Hq) Hbody) as [Hm ->].
    now rewrite Hm.
Qed.

Lemma canon_same (p : json) : same_up_to_key_order p (canon p).
Proof.
  induction p as [ | b | n | x | s | items IH | entries IH ]
    using json_induction; try constructor.
  - induction IH; simpl; constructor; auto.
  - apply same_dict
      with (e := map (fun kv => (fst kv, canon (snd kv))) entries).
    + induction IH; simpl; constructor; auto.
    + apply sorted_items_permutation.
Qed.

(** The escaping of strings loses nothing: a string can be read back from
    its escaped form, whatever follows the closing quote, so that two
    strings escaped alike are the same string. *)
Theorem escape_injective (s1 s2 r1 r2 : string) :
  (escape s1 ++ String dquote r1 = escape s2 ++ String dquote r2)%string ->
  s1 = s2 /\ r1 = r2.
Proof. apply escape_unique. Qed.

(** The canonical serialization tells payloads apart: two payloads without
    floats that are serialized alike are one payload up to the order in
    which their objects list their keys - sorting the keys at every level
    makes them equal. With the theorem on key order this makes the
    serialization, and so the fingerprint up to collisions of the digest,
    the same for two such payloads exactly when they differ in key order
    only. *)
Theorem canonical_json_injective (p q : json) :
  float_free p = true ->
  float_free q = true ->
  canonical_json p = canonical_json q ->
  canon p = canon q
  /\ same_up_to_key_order p (canon p)
  /\ same_up_to_key_order q (canon p).
Proof.
  intros Hp Hq H.
  assert (canon p = canon q) as Hc.
  { destruct (canonical_json_unique p Hp q EmptyString EmptyString)
      as [Hc _]; auto.
    now rewrite H. }
  split; auto. split; [ apply canon_same | ].
  rewrite Hc. apply canon_same.
Qed.

(** *** One line *)








End SerializationProperties.

(** ** More on the loop *)

Section LoopProperties.
Context {R : Runtime}.
Context {this : Invocation}.

Ltac for_cases p rest s :=
  destruct (for_step_outcome p rest s)
    as [ ? -> | ? ? ? -> | ? ? ? -> | ? ? ? -> ].




Lemma documents_counted (col : collection) (s : state) :
  reachable (initial col) s ->
  Z.of_nat (List.length (raw_col s))
  = Z.of_nat (List.length col) + inserted s.
Proof.
  apply (invariant_reachable
           (fun x => Z.of_nat (List.length (raw_col x))
                     = Z.of_nat (List.length col) + inserted x)).
  - simpl. lia.
  - intros x Hx. unfold step.
    destruct (pc x) as [ | [ | p rest ] | | why | e ]; simpl; auto.
    + now destruct (while_step_frame x) as (-> & _ & _ & -> & _).
    + for_cases p rest x; simpl; auto.
      rewrite length_app. simpl. lia.
Qed.

(** [inserted] counts the documents created: at every point of a run the
    store holds as many documents more than at the start as [inserted]
    says. *)
Theorem inserted_counts_documents (col : collection) (s : state) :
  reachable (initial col) s ->
  Z.of_nat (List.length (raw_col s))
  = Z.of_nat (List.length col) + inserted s.
Proof. apply documents_counted. Qed.

(** [insert_raw] is called at most once for each product counted in
    [requested], and every product counted in [inserted] or [duplicates]
    went through one call. *)
Theorem calls_accounting (col : collection) (s : state) :
  reachable (initial col) s ->
  inserted s + duplicates s <= Z.of_nat (calls s) <= requested s.
Proof.
  apply (invariant_reachable
           (fun x => inserted x + duplicates x
                     <= Z.of_nat (calls x) <= requested x)).
  - simpl. lia.
  - intros x Hx. unfold step.
    destruct (pc x) as [ | [ | p rest ] | | why | e ]; simpl; auto.
    + now destruct (while_step_frame x) as (-> & -> & -> & _ & ->).
    + for_cases p rest x; simpl; lia.
Qed.

(** The collector never inserts more than [args.limit] documents: the
    option is a cap as much as a minimum, and a run that reaches a
    positive limit ends with exactly that many inserted. *)
Theorem never_over_inserts (col : collection) (s : state) :
  reachable (initial col) s ->
  inserted s <= Z.max 0 (limit args)
  /\ Z.of_nat (List.length (raw_col s))
     <= Z.of_nat (List.length col) + Z.max 0 (limit args)
  /\ (0 < limit args -> limit args <= inserted s -> inserted s = limit args).
Proof.
  intros Hreach.
  destruct (run_ok_reachable col s Hreach) as (_ & [Hmax _] & _).
  pose proof (documents_counted col s Hreach).
  repeat split; lia.
Qed.

(** The pages are asked for in order, from 1 on, none skipped and none
    twice; the cursor stands on the last one while its products are
    processed and one past it otherwise. *)
Theorem pages_fetched_in_order (col : collection) (s : state) :
  reachable (initial col) s ->
  fetches (out s) = pages_upto (List.length (fetches (out s)))
  /\ Z.of_nat (List.length (fetches (out s)))
     = if in_page s then page s else page s - 1.
Proof.
  intros Hreach.
  destruct (run_ok_reachable col s Hreach) as (_ & _ & Hf).
  destruct Hf as (Hp1 & _ & _ & Hout).
  rewrite Hout at 1. rewrite Hout.
  unfold pages_upto. rewrite length_map, length_seq.
  split; auto.
  destruct (in_page s); lia.
Qed.

(** A page is counted as failed at most once: [failed_pages] never
    exceeds the number of pages asked for, hence never [args.max_pages]. *)
Theorem failed_pages_bounded (col : collection) (s : state) :
  reachable (initial col) s ->
  failed_pages s <= Z.of_nat (List.length (fetches (out s)))
  /\ failed_pages s <= Z.max 0 (max_pages args).
Proof.
  intros Hreach.
  assert (failed_pages s <= Z.of_nat (List.length (fetches (out s)))) as H.
  { revert s Hreach.
    apply (invariant_reachable
             (fun x => failed_pages x
                       <= Z.of_nat (List.length (fetches (out x))))).
    - simpl. lia.
    - intros x Hx. unfold step.
      destruct (pc x) as [ | [ | p rest ] | | why | e ]; simpl; auto.
      + unfold while_step.
        destruct (inserted x <? limit args); simpl; auto.
        destruct (page x <=? max_pages args); simpl; auto.
        destruct (off_search _ _ _ _ _) as [ [ [ | p ps ] full ] | e ];
          simpl; rewrite ?fetches_app, ?length_app; simpl; lia.
      + destruct (for_step_stays p rest x) as (_ & -> & -> & _). auto.
      + rewrite fetches_app, length_app. simpl. lia. }
  split; auto.
  destruct (run_ok_reachable col s Hreach) as (_ & _ & Hf).
  destruct Hf as (Hp1 & Hcap & Hin & Hout).
  rewrite Hout in H. unfold pages_upto in H.
  rewrite length_map, length_seq in H.
  destruct (in_page s); [ specialize (Hin eq_refl) | ]; lia.
Qed.



(** Deduplication does not see the order of the keys: a product that is a
    stored payload with the keys of its objects listed in another order is
    counted as a duplicate and nothing is written. *)
Theorem reordered_payload_is_duplicate (s : state) (p q : json)
    (rest : list json) :
  pc s = InFor (q :: rest) ->
  is_dict q = true ->
  insert_fault w (calls s) = None ->
  well_formed p = true ->
  same_up_to_key_order p q ->
  has_hash (fingerprint p) (raw_col s) = true ->
  duplicates (step s) = duplicates s + 1
  /\ inserted (step s) = inserted s
  /\ raw_col (step s) = raw_col s.
Proof.
  intros Hpc Hdict Hfault Hwf Hsame Hheld.
  assert (fingerprint q = fingerprint p) as Hfp.
  { unfold fingerprint. f_equal. symmetry.
    now apply canonical_json_key_order. }
  assert (step s = for_step q rest s) as Hstep
      by (unfold step; now rewrite Hpc).
  rewrite Hstep.
  for_cases q rest s; simpl; try congruence; auto.
Qed.

(** A run over products the store already holds writes nothing: when
    every object that the remote API serves, on whatever page, has its
    fingerprint in the store the run starts from, [inserted] stays at 0 and
    the store is at every point the store of the start. *)
Theorem rerun_inserts_nothing (col : collection) (s : state) :
  (forall pg products full p,
      off_search (session_get w) off_base_url pg (page_size args)
        (category_en args) = Return (products, full) ->
      In p products -> is_dict p = true ->
      has_hash (fingerprint p) col = true) ->
  reachable (initial col) s ->
  inserted s = 0 /\ raw_col s = col.
Proof.
  intros Hheld Hreach.
  assert (inserted s = 0 /\ raw_col s = col
          /\ forall rest, pc s = InFor rest ->
               forall p, In p rest -> is_dict p = true ->
                         has_hash (fingerprint p) col = true) as H;
    [ | tauto ].
  revert s Hreach.
  apply (invariant_reachable
           (fun x => inserted x = 0 /\ raw_col x = col
                     /\ forall rest, pc x = InFor rest ->
                          forall p, In p rest -> is_dict p = true ->
                                    has_hash (fingerprint p) col = true)).
  - simpl. repeat split; auto; try discriminate.
  - intros x (Hins & Hcol & Hrest). unfold step.
    destruct (pc x) as [ | [ | p rest ] | | why | e ] eqn:Hpc; simpl.
    + destruct (while_step_frame x) as (-> & _ & _ & -> & _).
      repeat split; auto.
      unfold while_step.
      destruct (inserted x <? limit args); simpl; try discriminate.
      destruct (page x <=? max_pages args); simpl; try discriminate.
      destruct (off_search _ _ _ _ _) as [ [ [ | p ps ] full ] | e ] eqn:Hf;
        simpl; try discriminate.
      intros rest Hr. inversion Hr; subst rest. eauto.
    + repeat split; auto; try discriminate.
    + assert (forall q, In q rest -> is_dict q = true ->
                        has_hash (fingerprint q) col = true) as Htail
          by (intros q Hq; apply (Hrest (p :: rest)); auto; now right).
      assert (is_dict p = true -> has_hash (fingerprint p) col = true)
        as Hhead by (apply (Hrest (p :: rest)); auto; now left).
      for_cases p rest x; simpl.
      * repeat split; auto. intros r Hr. inversion Hr; subst r. auto.
      * repeat split; auto. intros r Hr. inversion Hr; subst r. auto.
      * repeat split; auto.
        destruct (limit args <=? inserted x); try discriminate.
        intros r Hr. inversion Hr; subst r. auto.
      * rewrite Hcol in *. rewrite Hhead in * by assumption. discriminate.
    + repeat split; auto; try discriminate.
    + rewrite Hpc. repeat split; auto; try discriminate.
    + rewrite Hpc. repeat split; auto; try discriminate.
Qed.

End LoopProperties.

(** ** More on [main] *)

Section MainProperties.
Context {R : Runtime}.

(** The exit status tells how the loop was left: 0 when its test failed on
    [inserted < args.limit], 1 when it failed on the page cap or when an
    empty page broke it - an exhausted source is reported like an exceeded
    cap. *)
Theorem exit_status_tells_the_exit (fuel : nat) (env : environ)
    (args : arguments) (w : world) (col : collection) (code : Z)
    (final : state) :
  main fuel env args w col = Some (Summary code final) ->
  (code = 0 <-> pc final = Stopped TargetReached)
  /\ (code = 1 <-> pc final = Stopped EmptyPage
                   \/ pc final = Stopped PageCapExceeded).
Proof.
  set (this := mkInvocation args
                 (getenv env "OFF_BASE_URL" "https://world.openfoodfacts.org")
                 w).
  unfold main. fold this.
  destruct (str_strip (getenv env "OFF_USER_AGENT" "")); [ discriminate | ].
  destruct (run (this := this) fuel (initial col)) as [ final' | ] eqn:Hrun;
    [ | discriminate ].
  destruct (run_steps _ _ _ Hrun) as [Hreach Hhalt].
  destruct (run_ok_reachable (this := this) col final' Hreach)
    as (_ & [_ Hloop] & _).
  unfold halted in Hhalt.
  destruct (pc final') as [ | rest | | [ | | ] | e ] eqn:Hpc;
    try discriminate; try contradiction;
    simpl in Hloop;
    destruct (limit args <=? inserted final') eqn:Hlim;
    try (apply Z.leb_le in Hlim); try (apply Z.leb_gt in Hlim);
    intros H; inversion H; subst; try lia;
    rewrite Hpc; repeat split; intros; try discriminate; try lia; auto;
    repeat match goal with H : _ \/ _ |- _ => destruct H end;
    try discriminate.
Qed.

(** [--limit 0], or a negative limit: the collector asks for no page,
    writes nothing and returns 0. *)
Theorem nonpositive_limit_does_nothing (fuel : nat) (env : environ)
    (args : arguments) (w : world) (col : collection) :
  str_strip (getenv env "OFF_USER_AGENT" "") <> EmptyString ->
  limit args <= 0 ->
  main (S fuel) env args w col
  = Some (Summary 0 (set_pc (Stopped TargetReached) (initial col))).
Proof.
  intros Hua Hlim.
  set (this := mkInvocation args
                 (getenv env "OFF_BASE_URL" "https://world.openfoodfacts.org")
                 w).
  assert (step (this := this) (initial col)
          = set_pc (Stopped TargetReached) (initial col)) as Hstep.
  { unfold step, while_step. simpl.
    replace (0 <? limit args) with false; auto.
    symmetry. apply Z.ltb_ge. lia. }
  assert (run (this := this) (S fuel) (initial col)
          = Some (set_pc (Stopped TargetReached) (initial col))) as Hrun.
  { rewrite <- Hstep.
    change (step (initial col)) with (steps (this := this) 1 (initial col)).
    apply steps_run; [ | lia ]. simpl. now rewrite Hstep. }
  unfold main. fold this.
  destruct (str_strip (getenv env "OFF_USER_AGENT" "")); [ now elim Hua | ].
  rewrite Hrun. simpl.
  replace (limit args <=? 0) with true; auto.
  symmetry. apply Z.leb_le. lia.
Qed.

(** [--max-pages 0], or a negative cap, with a positive limit: the
    collector asks for no page, writes nothing and returns 1. *)
Theorem no_page_allowed (fuel : nat) (env : environ) (args : arguments)
    (w : world) (col : collection) :
  str_strip (getenv env "OFF_USER_AGENT" "") <> EmptyString ->
  0 < limit args ->
  max_pages args < 1 ->
  main (S fuel) env args w col
  = Some (Summary 1 (set_pc (Stopped PageCapExceeded) (initial col))).
Proof.
  intros Hua Hlim Hcap.
  set (this := mkInvocation args
                 (getenv env "OFF_BASE_URL" "https://world.openfoodfacts.org")
                 w).
  assert (step (this := this) (initial col)
          = set_pc (Stopped PageCapExceeded) (initial col)) as Hstep.
  { unfold step, while_step. simpl.
    replace (0 <? limit args) with true
      by (symmetry; apply Z.ltb_lt; lia).
    replace (1 <=? max_pages args) with false; auto.
    symmetry. apply Z.leb_gt. lia. }
  assert (run (this := this) (S fuel) (initial col)
          = Some (set_pc (Stopped PageCapExceeded) (initial col))) as Hrun.
  { rewrite <- Hstep.
    change (step (initial col)) with (steps (this := this) 1 (initial col)).
    apply steps_run; [ | lia ]. simpl. now rewrite Hstep. }
  unfold main. fold this.
  destruct (str_strip (getenv env "OFF_USER_AGENT" "")); [ now elim Hua | ].
  rewrite Hrun. simpl.
  replace (limit args <=? 0) with false; auto.
  symmetry. apply Z.leb_gt. lia.
Qed.

Lemma run_same_requests (A B : Invocation) :
  limit (args (Invocation := A)) = limit (args (Invocation := B)) ->
  max_pages (args (Invocation := A)) = max_pages (args (Invocation := B)) ->
  sleep_ms (args (Invocation := A)) = sleep_ms (args (Invocation := B)) ->
  w (Invocation := A) = w (Invocation := B) ->
  (forall pg,
      search_request (off_base_url (Invocation := A)) pg
        (page_size (args (Invocation := A)))
        (category_en (args (Invocation := A)))
      = search_request (off_base_url (Invocation := B)) pg
          (page_size (args (Invocation := B)))
          (category_en (args (Invocation := B)))) ->
  forall fuel s, run (this := A) fuel s = run (this := B) fuel s.
Proof.
  intros Hlim Hmax Hsleep Hw Hreq.
  assert (forall s, step (this := A) s = step (this := B) s) as Hstep.
  { intros s. unfold step.
    destruct (pc s) as [ | [ | p rest ] | | why | e ]; auto.
    - unfold while_step, advance, off_search.
      now rewrite Hlim, Hmax, Hsleep, Hw, Hreq.
    - unfold for_step. now rewrite Hlim, Hw.
    - unfold advance. now rewrite Hsleep. }
  induction fuel as [ | fuel IH ]; intros s; simpl; auto.
  destruct (halted s); auto. now rewrite Hstep.
Qed.

(** An empty [--category-en] is no category: the run is, step for step,
    that of the same command line without the option. *)
Theorem empty_category_is_no_category (fuel : nat) (env : environ)
    (a : arguments) (w : world) (col : collection) :
  category_en a = Some EmptyString ->
  main fuel env a w col
  = main fuel env
      (mkArguments (limit a) (page_size a) None (sleep_ms a) (max_pages a))
      w col.
Proof.
  intros Hcat. unfold main.
  destruct (str_strip (getenv env "OFF_USER_AGENT" "")); auto.
  rewrite (run_same_requests
             (mkInvocation a
                (getenv env "OFF_BASE_URL" "https://world.openfoodfacts.org")
                w)
             (mkInvocation
                (mkArguments (limit a) (page_size a) None (sleep_ms a)
                   (max_pages a))
                (getenv env "OFF_BASE_URL" "https://world.openfoodfacts.org")
                w)); auto.
  intros pg. simpl. now rewrite Hcat.
Qed.

End MainProperties.

(** ** Runs in the sample world *)

(** The serialization sorts the keys, writes no space, and escapes what
    JSON has to. *)
Example canonical_json_sorted :
  canonical_json (R := Sample.runtime)
    (JDict [("b", JInt (-2));
            ("a", JList [JNull; JBool true; JStr "x"; JDict []])])
  = ("{" ++ quoted "a" ++ ":[null,true," ++ quoted "x" ++ ",{}],"
         ++ quoted "b" ++ ":-2}")%string.
Proof. reflexivity. Qed.

Example escape_controls :
  escape (String (ascii_of_nat 10) (String (ascii_of_nat 1) (char dquote)))
  = String backslash
      ("n" ++ String backslash ("u0001" ++ String backslash (char dquote)))%string.
Proof. reflexivity. Qed.

Example search_request_snacks :
  search_request "https://world.openfoodfacts.org//" 3 100 (Some "Snacks")
  = mkRequest "https://world.openfoodfacts.org/api/v2/search"
      [("page", PInt 3); ("page_size", PInt 100);
       ("sort_by", PStr "last_modified_t");
       ("categories_tags_en", PStr "Snacks")]
      (5, 15).
Proof. reflexivity. Qed.

Example off_search_page1 :
  match off_search (R := Sample.runtime) Sample.get Sample.base_url 1 100
          None with
  | Return (products, _) => products = Sample.page1
  | Raise _ => False
  end.
Proof. reflexivity. Qed.

(** [--limit 5] on a first page of ten distinct products: the run stops in
    the middle of the page, five products inserted, five left alone. *)
Example five_of_ten :
  match main (R := Sample.runtime) 100 Sample.environment Sample.limit5
          Sample.world [] with
  | Some (Summary code final) =>
      code = 0 /\ inserted final = 5 /\ requested final = 5
      /\ List.length (raw_col final) = 5%nat
      /\ fetches (out final) = [1]
      /\ pc final = Stopped TargetReached
  | _ => False
  end.
Proof. vm_compute. repeat split. Qed.

(** [--limit 20]: page 1 loses a product to a store failure, page 2 fails,
    page 3 brings a duplicate, a string and a new product, page 4 is empty;
    the run ends there with exit code 1. *)
Example twenty_not_reached :
  match main (R := Sample.runtime) 100 Sample.environment Sample.limit20
          Sample.world [] with
  | Some (Summary code final) =>
      code = 1 /\ inserted final = 10 /\ duplicates final = 1
      /\ requested final = 13 /\ failed_pages final = 1
      /\ fetches (out final) = [1; 2; 3; 4]
      /\ pc final = Stopped EmptyPage
  | _ => False
  end.
Proof. vm_compute. repeat split. Qed.

(** Without [OFF_USER_AGENT] the collector returns 2 at once. *)
Example no_user_agent :
  main (R := Sample.runtime) 0 Sample.no_environment Sample.limit20
    Sample.world [] = Some MissingUserAgent.
Proof. reflexivity. Qed.

Lemma C1_witness :
  let s := steps (this := Sample.run20) 1 (initial Sample.stored1) in
  duplicates (step (this := Sample.run20) s) = duplicates s + 1
  /\ inserted (step (this := Sample.run20) s) = inserted s
  /\ raw_col (step (this := Sample.run20) s) = Sample.stored1.
Proof.
  intros s.
  destruct (C1_idempotent_ingestion (this := Sample.run20)
              None (Sample.now 0) "openfoodfacts" [] Sample.stored1
              (Sample.product 1) (initial Sample.stored1) s
              (tl Sample.page1))
    as (_ & _ & Hdup & Hins & Hcol & _).
  - vm_compute; reflexivity.
  - vm_compute; reflexivity.
  - exists 1%nat. vm_compute; reflexivity.
  - vm_compute; reflexivity.
  - vm_compute; reflexivity.
  - vm_compute; reflexivity.
  - split; [ exact Hdup | ]. split; [ exact Hins | exact Hcol ].
Defined.

Lemma C2_witness :
  fingerprint (R := Sample.runtime) Sample.nested1
  = fingerprint Sample.nested2.
Proof.
  apply (C2_fingerprint_canonical (R := Sample.runtime)
           Sample.nested1 Sample.nested2).
  - vm_compute; reflexivity.
  - apply same_dict
      with (e := [("code", JInt 7);
                  ("nutriments",
                   JDict (R := Sample.runtime)
                     [("salt", JInt 2); ("fat", JInt 1)]);
                  ("tags", JList [JStr "a"; JNull])]).
    + constructor; [ split; [ reflexivity | apply same_int ] | ].
      constructor.
      { split; [ reflexivity | ].
        apply same_dict with (e := [("fat", JInt 1); ("salt", JInt 2)]).
        - constructor; [ split; [ reflexivity | apply same_int ] | ].
          constructor; [ split; [ reflexivity | apply same_int ] | ].
          constructor.
        - apply perm_swap. }
      constructor; [ | constructor ].
      split; [ reflexivity | ].
      apply same_list.
      constructor; [ apply same_str | ].
      constructor; [ apply same_null | constructor ].
    + apply (Permutation_rev
               [("code", JInt 7);
                ("nutriments",
                 JDict (R := Sample.runtime)
                   [("salt", JInt 2); ("fat", JInt 1)]);
                ("tags", JList [JStr "a"; JNull])]).
Defined.




Lemma C6_witness :
  off_search (R := Sample.runtime) Sample.get Sample.base_url 2 100 None
  = Raise (RuntimeError "OFF HTTP 503: Service Unavailable").
Proof.
  destruct (C6_fetch_failure_condition (R := Sample.runtime)
              Sample.get Sample.base_url 2 100 None
              (mkResponse 503 "Service Unavailable"
                 (Raise (JSONDecodeError "Expecting value"))))
    as (_ & Hstatus & _).
  - vm_compute; reflexivity.
  - destruct Hstatus as (Hraise & _).
    + simpl. discriminate.
    + exact Hraise.
Defined.

(** A status of the class 2xx other than 200 makes [off_search] raise,
    though the body holds a list of products. *)
Lemma C6_counterexample :
  let r := off_search (R := Sample.runtime) (fun _ => Return Sample.created)
             Sample.base_url 1 100 None in
  is_2xx (status_code Sample.created) = true
  /\ products_field Sample.created = Some [Sample.product 1]
  /\ r = Raise (RuntimeError
                  ("OFF HTTP 201: " ++ text Sample.created)%string)
  /\ ~ (raises r
        <-> is_2xx (status_code Sample.created) = false
            \/ products_field Sample.created = None).
Proof.
  intros r.
  split; [ reflexivity | ]. split; [ reflexivity | ].
  split; [ reflexivity | ].
  intros [Hraise _].
  destruct Hraise as [ H | H ]; [ | discriminate H | discriminate H ].
  eexists. reflexivity.
Qed.

Lemma C7_witness :
  let s := steps (this := Sample.run20) 20 (initial []) in
  pc (step (this := Sample.run20) s) = Stopped EmptyPage
  /\ requested (step (this := Sample.run20) s) = requested s
  /\ page (step (this := Sample.run20) s) = page s.
Proof.
  intros s.
  destruct (C7_empty_page_termination (this := Sample.run20) s
              (JDict [("count", JInt 10); ("products", JList [])]))
    as (Hpc & _ & _ & Hreq & _ & _ & Hpage & _).
  - vm_compute; reflexivity.
  - vm_compute. reflexivity.
  - vm_compute. discriminate.
  - vm_compute; reflexivity.
  - split; [ exact Hpc | ]. split; [ exact Hreq | exact Hpage ].
Defined.

Lemma C10_witness :
  let s := steps (this := Sample.run20) 17 (initial []) in
  inserted s + duplicates s <= requested s
  /\ requested (step (this := Sample.run20) s) = requested s + 1.
Proof.
  intros s.
  destruct (C10_counter_accounting (this := Sample.run20) [] s)
    as ((_ & _ & _ & _ & Hsum) & _ & Hreq & _).
  - exists 17%nat. reflexivity.
  - split; [ exact Hsum | exact Hreq ].
Defined.

(** *** Instances of the further properties *)


Lemma inserted_counts_documents_witness :
  let s := steps (this := Sample.run20) 20 (initial Sample.stored1) in
  Z.of_nat (List.length (raw_col s)) = 1 + inserted s.
Proof.
  intros s.
  apply (inserted_counts_documents (this := Sample.run20) Sample.stored1 s).
  exists 20%nat. reflexivity.
Defined.

Lemma calls_accounting_witness :
  let s := steps (this := Sample.run20) 20 (initial []) in
  inserted s + duplicates s <= Z.of_nat (calls s) <= requested s.
Proof.
  intros s.
  apply (calls_accounting (this := Sample.run20) [] s).
  exists 20%nat. reflexivity.
Defined.

Lemma never_over_inserts_witness :
  inserted (steps (this := Sample.run5) 8 (initial [])) <= 5.
Proof.
  destruct (never_over_inserts (this := Sample.run5) []
              (steps (this := Sample.run5) 8 (initial [])))
    as (H & _).
  - exists 8%nat. reflexivity.
  - exact H.
Defined.

Lemma pages_fetched_in_order_witness :
  let s := steps (this := Sample.run20) 20 (initial []) in
  fetches (out s) = pages_upto (List.length (fetches (out s))).
Proof.
  intros s.
  destruct (pages_fetched_in_order (this := Sample.run20) [] s) as (H & _).
  - exists 20%nat. reflexivity.
  - exact H.
Defined.

Lemma failed_pages_bounded_witness :
  let s := steps (this := Sample.run20) 20 (initial []) in
  failed_pages s <= Z.of_nat (List.length (fetches (out s))).
Proof.
  intros s.
  destruct (failed_pages_bounded (this := Sample.run20) [] s) as (H & _).
  - exists 20%nat. reflexivity.
  - exact H.
Defined.



Lemma reordered_payload_is_duplicate_witness :
  duplicates (step (this := Sample.run20) MoreSamples.reordered) = 1
  /\ raw_col (step (this := Sample.run20) MoreSamples.reordered)
     = [MoreSamples.stored Sample.nested1].
Proof.
  destruct (reordered_payload_is_duplicate (this := Sample.run20)
              MoreSamples.reordered Sample.nested1 Sample.nested2 [])
    as (Hdup & _ & Hcol).
  - reflexivity.
  - reflexivity.
  - reflexivity.
  - reflexivity.
  - apply same_dict
      with (e := [("code", JInt 7);
                  ("nutriments",
                   JDict (R := Sample.runtime)
                     [("salt", JInt 2); ("fat", JInt 1)]);
                  ("tags", JList [JStr "a"; JNull])]).
    + constructor; [ split; [ reflexivity | apply same_int ] | ].
      constructor.
      { split; [ reflexivity | ].
        apply same_dict with (e := [("fat", JInt 1); ("salt", JInt 2)]).
        - constructor; [ split; [ reflexivity | apply same_int ] | ].
          constructor; [ split; [ reflexivity | apply same_int ] | ].
          constructor.
        - apply perm_swap. }
      constructor; [ | constructor ].
      split; [ reflexivity | ].
      apply same_list.
      constructor; [ apply same_str | ].
      constructor; [ apply same_null | constructor ].
    + apply (Permutation_rev
               [("code", JInt 7);
                ("nutriments",
                 JDict (R := Sample.runtime)
                   [("salt", JInt 2); ("fat", JInt 1)]);
                ("tags", JList [JStr "a"; JNull])]).
  - reflexivity.
  - split; [ exact Hdup | exact Hcol ].
Defined.

(** Every object that the sample API serves is in [MoreSamples.all_stored]. *)
Lemma sample_pages_all_stored (pg : Z) :
  forallb (fun p => negb (is_dict p)
                    || has_hash (fingerprint p) MoreSamples.all_stored)
    match off_search (session_get (w (Invocation := Sample.run20)))
            (off_base_url (Invocation := Sample.run20)) pg
            (page_size (args (Invocation := Sample.run20)))
            (category_en (args (Invocation := Sample.run20))) with
    | Return (products, _) => products
    | Raise _ => []
    end = true.
Proof.
  unfold off_search.
  change (session_get w
            (search_request off_base_url pg (page_size args)
               (category_en args)))
    with (if pg =? 1 then Sample.ok Sample.page1
          else if pg =? 2 then
            Return (mkResponse 503 "Service Unavailable"
                      (Raise (JSONDecodeError "Expecting value")))
          else if pg =? 3 then
            Sample.ok [Sample.product 1; JStr "junk"; Sample.product 11]
          else Sample.ok []).
  destruct (pg =? 1); [ vm_compute; reflexivity | ].
  destruct (pg =? 2); [ vm_compute; reflexivity | ].
  destruct (pg =? 3); vm_compute; reflexivity.
Qed.

Lemma rerun_inserts_nothing_witness :
  let s := steps (this := Sample.run20) 20 (initial MoreSamples.all_stored) in
  inserted s = 0 /\ raw_col s = MoreSamples.all_stored.
Proof.
  intros s.
  apply (rerun_inserts_nothing (this := Sample.run20)
           MoreSamples.all_stored s).
  - intros pg products full p Hs Hin Hd.
    pose proof (sample_pages_all_stored pg) as Hall.
    rewrite Hs in Hall. rewrite forallb_forall in Hall.
    specialize (Hall p Hin). rewrite Hd in Hall. exact Hall.
  - exists 20%nat. reflexivity.
Defined.

Lemma exit_status_tells_the_exit_witness :
  pc (steps (this := Sample.run5) 8 (initial [])) = Stopped TargetReached.
Proof.
  apply (exit_status_tells_the_exit (R := Sample.runtime) 100
           Sample.environment Sample.limit5 Sample.world [] 0
           (steps (this := Sample.run5) 8 (initial []))).
  - vm_compute. reflexivity.
  - reflexivity.
Defined.

Lemma nonpositive_limit_does_nothing_witness :
  main (R := Sample.runtime) 1 Sample.environment MoreSamples.limit0
    Sample.world Sample.stored1
  = Some (Summary 0 (set_pc (Stopped TargetReached)
                       (initial Sample.stored1))).
Proof.
  apply (nonpositive_limit_does_nothing (R := Sample.runtime) 0
           Sample.environment MoreSamples.limit0 Sample.world
           Sample.stored1).
  - discriminate.
  - simpl. lia.
Defined.

Lemma no_page_allowed_witness :
  main (R := Sample.runtime) 1 Sample.environment MoreSamples.no_pages
    Sample.world []
  = Some (Summary 1 (set_pc (Stopped PageCapExceeded) (initial []))).
Proof.
  apply (no_page_allowed (R := Sample.runtime) 0
           Sample.environment MoreSamples.no_pages Sample.world []).
  - discriminate.
  - simpl. lia.
  - simpl. lia.
Defined.

Lemma empty_category_is_no_category_witness :
  main (R := Sample.runtime) 100 Sample.environment
    MoreSamples.blank_category Sample.world []
  = main (R := Sample.runtime) 100 Sample.environment Sample.limit5
      Sample.world [].
Proof.
  apply (empty_category_is_no_category (R := Sample.runtime) 100
           Sample.environment MoreSamples.blank_category Sample.world []).
  reflexivity.
Defined.

Lemma short_body_reported_whole_witness :
  off_search (R := Sample.runtime) Sample.get Sample.base_url 2 100 None
  = Raise (RuntimeError "OFF HTTP 503: Service Unavailable").
Proof.
  apply (short_body_reported_whole (R := Sample.runtime) Sample.get
           Sample.base_url 2 100 None
           (mkResponse 503 "Service Unavailable"
              (Raise (JSONDecodeError "Expecting value")))).
  - reflexivity.
  - simpl. discriminate.
  - vm_compute. repeat constructor.
Defined.

Lemma off_search_returns_the_products_witness :
  exists resp entries,
    Sample.get (search_request Sample.base_url 1 100 None) = Return resp
    /\ status_code resp = 200
    /\ body resp = Return (JDict entries)
    /\ lookup "products" entries = Some (JList Sample.page1).
Proof.
  destruct (off_search_returns_the_products (R := Sample.runtime)
              Sample.get Sample.base_url 1 100 None Sample.page1
              (JDict [("count", JInt 10);
                      ("products", JList Sample.page1)]))
    as (resp & entries & Hget & Hst & Hbody & Hdata & Hlook).
  - reflexivity.
  - exists resp, entries. rewrite <- Hdata. auto.
Defined.

Lemma escape_injective_witness :
  ("a" ++ String (ascii_of_nat 10) "b")%string
  = ("a" ++ String (ascii_of_nat 10) "b")%string
  /\ "tail"%string = "tail"%string.
Proof.
  apply (escape_injective
           ("a" ++ String (ascii_of_nat 10) "b")
           ("a" ++ String (ascii_of_nat 10) "b") "tail" "tail").
  reflexivity.
Defined.

Lemma canonical_json_injective_witness :
  canon (R := Sample.runtime) Sample.nested1 = canon Sample.nested2.
Proof.
  destruct (canonical_json_injective (R := Sample.runtime)
              Sample.nested1 Sample.nested2) as (H & _).
  - reflexivity.
  - reflexivity.
  - reflexivity.
  - exact H.
Defined.

